(** * cool/arena.h: a chained bump-pointer arena allocator

    Shallow embedding of [src/arena.h] (Arena_init, Arena_alloc, Arena_reset,
    Arena_free) over an explicit heap of [Arena] structs, and the properties
    of the allocator checked against it.

    Conventions of the embedding:
    - [uintptr_t] is a 64-bit unsigned integer (LP64; the source prints it
      with [%lu]); values are [Z] and every arithmetic result is reduced
      with [wrap];
    - a pointer is its address, [NULL] is [0]; pointer arithmetic on a
      [uintptr_t *] moves by [sizeof_uintptr] bytes per element;
    - the heap maps the address of every [Arena] struct to its four fields and
      records which blocks the backing allocator has handed out;
    - loops take fuel; a dereference of [NULL] or of an address that holds no
      [Arena] is a [Fault];
    - the backing allocator ([COOL_ARENA_FUNC_ALLOC], malloc by default) is
      external: the addresses it answers with are an argument of
      [Arena_alloc], one per call, [0] for a failed call. *)

From Stdlib Require Import ZArith Lia List.
From stdpp Require Import gmap list.

#[local] Open Scope Z_scope.

(** ** Machine integers and pointers *)

Definition UINTPTR_MAX1 : Z := 2 ^ 64.

Definition wrap (z : Z) : Z := z mod UINTPTR_MAX1.

Definition NULL : Z := 0.

Definition sizeof_uintptr : Z := 8.

Definition sizeof_Arena : Z := 4 * sizeof_uintptr.

(** [p + n] for [p : uintptr_t *]. *)
Definition ptr_add (p n : Z) : Z := wrap (p + sizeof_uintptr * n).

(** ** The data model *)

Record Arena : Type := mkArena {
  _region : Z;      (* uintptr_t *_region *)
  _size : Z;        (* uintptr_t _size *)
  _alloc_size : Z;  (* uintptr_t _alloc_size *)
  _next : Z         (* struct Arena *_next *)
}.

Record heap : Type := mkHeap {
  nodes : gmap Z Arena;   (* the Arena structs, by address *)
  blocks : gmap Z Z       (* live blocks of the backing allocator: address, byte size *)
}.

Definition empty_heap : heap := mkHeap ∅ ∅.

(** ** Results of running code with fuel *)

Inductive res (A : Type) : Type :=
  | Ret (a : A)
  | Fault
  | Timeout.

Arguments Ret {A} a.
Arguments Fault {A}.
Arguments Timeout {A}.

#[global] Instance res_bind : MBind res := fun A B k r =>
  match r with
  | Ret a => k a
  | Fault => Fault
  | Timeout => Timeout
  end.

(** ** Memory accesses *)

Definition load (st : heap) (arena : Z) : res Arena :=
  if arena =? NULL then Fault
  else match nodes st !! arena with
       | Some n => Ret n
       | None => Fault
       end.

Definition store (st : heap) (arena : Z) (n : Arena) : heap :=
  mkHeap (<[arena := n]> (nodes st)) (blocks st).

(** ** The backing allocator *)

(** One call of [COOL_ARENA_FUNC_ALLOC(n)]: the next answer of the provider,
    [NULL] when it fails (or has nothing more to give). *)
Definition malloc (answers : list Z) (n : Z) (st : heap) : Z * list Z * heap :=
  match answers with
  | [] => (NULL, [], st)
  | p :: rest =>
      if p =? NULL then (NULL, rest, st)
      else (p, rest, mkHeap (nodes st) (<[p := n]> (blocks st)))
  end.

(** [COOL_ARENA_FUNC_FREE(p)]; freeing [NULL] does nothing. *)
Definition free (p : Z) (st : heap) : heap :=
  if p =? NULL then st else mkHeap (nodes st) (delete p (blocks st)).

(** ** The operations of arena.h *)

Definition Arena_init (st : heap) (arena : Z) : res heap :=
  if arena =? NULL then Fault
  else Ret (store st arena (mkArena NULL 0 0 NULL)).

(** [size <= arena->_alloc_size - arena->_size], in unsigned arithmetic. *)
Definition has_room (size : Z) (n : Arena) : bool :=
  size <=? wrap (_alloc_size n - _size n).

(** The [for (;;)] loop of [Arena_alloc]: the region the walk stops at. *)
Fixpoint Arena_alloc_walk (fuel : nat) (st : heap) (arena size : Z) : res Z :=
  match fuel with
  | O => Timeout
  | S fuel' =>
      n ← load st arena;
      if (_next n =? NULL) || has_room size n then Ret arena
      else Arena_alloc_walk fuel' st (_next n) size
  end.

(** The [while (new_capacity < size)] loop of [Arena_alloc]: [None] is the
    [return NULL] of the overflow check. *)
Fixpoint Arena_alloc_capacity (fuel : nat) (new_capacity size : Z) : res (option Z) :=
  match fuel with
  | O => Timeout
  | S fuel' =>
      if new_capacity <? size then
        if new_capacity >? wrap (Z.shiftl new_capacity 1) then Ret None
        else Arena_alloc_capacity fuel' (wrap (Z.shiftl new_capacity 1)) size
      else Ret (Some new_capacity)
  end.

(** [size = (size >> 2) + 1]: the request in allocation units. *)
Definition units (size : Z) : Z := wrap (Z.shiftr size 2 + 1).

(** The last three assignments of [Arena_alloc] and its [return]. *)
Definition Arena_alloc_update (st : heap) (arena size new_region new_capacity : Z)
    : res (Z * heap) :=
  n ← load st arena;
  let st := store st arena
              (mkArena new_region (wrap (_size n + size)) new_capacity (_next n)) in
  n ← load st arena;
  Ret (_region n, st).

Section Alloc.

(** The build-time constant [COOL_ARENA_DEF_SIZE] (8 * 1024 unless
    overridden; examples/arena.c sets it to 16). *)
Variable COOL_ARENA_DEF_SIZE : Z.

(** [Arena_alloc] from the walk on, [size] being the request already
    converted to allocation units. *)
Definition Arena_alloc_units (fuel : nat) (answers : list Z) (st : heap)
    (arena size : Z) : res (Z * heap) :=
  arena ← Arena_alloc_walk fuel st arena size;
  n ← load st arena;
  (* If this region has enough free memory, use it *)
  if has_room size n then
    let mem := ptr_add (_region n) (_size n) in
    Ret (mem, store st arena
                (mkArena (_region n) (wrap (_size n + size)) (_alloc_size n) (_next n)))
  else
    (* Calculate how much to allocate *)
    c ← Arena_alloc_capacity fuel (wrap COOL_ARENA_DEF_SIZE) size;
    match c with
    | None => Ret (NULL, st)
    | Some new_capacity =>
        (* Try allocating a region for the arena *)
        let '(new_region, answers, st) := malloc answers new_capacity st in
        if new_region =? NULL then Ret (NULL, st)
        else if negb (_region n =? NULL) then
          (* the region is not blank: create a new arena and use it *)
          let '(new_arena, answers, st) := malloc answers sizeof_Arena st in
          (* on failure the source calls free(new_region) directly *)
          if new_arena =? NULL then Ret (NULL, free new_region st)
          else
            st ← Arena_init st new_arena;
            n ← load st arena;
            let st := store st arena
                        (mkArena (_region n) (_size n) (_alloc_size n) new_arena) in
            Arena_alloc_update st new_arena size new_region new_capacity
        else Arena_alloc_update st arena size new_region new_capacity
    end.

Definition Arena_alloc (fuel : nat) (answers : list Z) (st : heap)
    (arena size : Z) : res (Z * heap) :=
  (* If size is 0, do nothing *)
  if size =? 0 then Ret (NULL, st)
  else
    (* Switch size to accomodate bytes *)
    Arena_alloc_units fuel answers st arena (units size).

End Alloc.

Fixpoint Arena_reset (fuel : nat) (st : heap) (arena : Z) : res heap :=
  match fuel with
  | O => Timeout
  | S fuel' =>
      if arena =? NULL then Ret st
      else
        n ← load st arena;
        let st := store st arena (mkArena (_region n) 0 (_alloc_size n) (_next n)) in
        Arena_reset fuel' st (_next n)
  end.

Fixpoint Arena_free (fuel : nat) (st : heap) (arena : Z) : res heap :=
  match fuel with
  | O => Timeout
  | S fuel' =>
      if arena =? NULL then Ret st
      else
        n ← load st arena;
        let st := free (_region n) st in
        let st := store st arena (mkArena NULL (_size n) (_alloc_size n) (_next n)) in
        let prev := arena in
        let arena := _next n in
        p ← load st prev;
        let st := store st prev (mkArena (_region p) (_size p) (_alloc_size p) NULL) in
        Arena_free fuel' st arena
  end.

(** [Arena_reset] called [k] times in a row. *)
Fixpoint Arena_reset_times (fuel : nat) (k : nat) (st : heap) (arena : Z) : res heap :=
  match k with
  | O => Ret st
  | S k' => st ← Arena_reset fuel st arena; Arena_reset_times fuel k' st arena
  end.

(** ** Chains of regions *)

(** [chain m a l]: following [_next] from [a] visits exactly the addresses
    [l], each holding an [Arena], and then reaches [NULL]. *)
Inductive chain (m : gmap Z Arena) : Z -> list Z -> Prop :=
  | chain_end : chain m NULL []
  | chain_link a n l :
      a <> NULL -> m !! a = Some n -> chain m (_next n) l -> chain m a (a :: l).

(** The fields of an [Arena] hold [uintptr_t] values. *)
Definition typed (n : Arena) : Prop :=
  0 <= _size n < UINTPTR_MAX1 /\ 0 <= _alloc_size n < UINTPTR_MAX1 /\
  0 <= _region n < UINTPTR_MAX1.

Definition chain_typed (m : gmap Z Arena) (l : list Z) : Prop :=
  forall a n, a ∈ l -> m !! a = Some n -> typed n.

(** Free space of the region at [a], as the code computes it. *)
Definition room_at (m : gmap Z Arena) (size : Z) (a : Z) : bool :=
  match m !! a with
  | Some n => has_room size n
  | None => false
  end.

(** First region, in chain order, with room for [size] units. *)
Definition first_fit (m : gmap Z Arena) (size : Z) (l : list Z) : option Z :=
  find (room_at m size) l.

(** The region a walk over [l] stops at: the first fit, else the tail. *)
Definition walk_stop (m : gmap Z Arena) (size : Z) (l : list Z) : Z :=
  match first_fit m size l with
  | Some a => a
  | None => List.last l NULL
  end.

(** ** Notions used to state the properties *)

(** Values of the form [def * 2^k], and the least of them above [size]. *)
Definition doubling (def c : Z) : Prop := exists k, 0 <= k /\ c = def * 2 ^ k.

Definition least_doubling (def size c : Z) : Prop :=
  doubling def c /\ size <= c /\ forall c', doubling def c' -> size <= c' -> c <= c'.

(** The backing allocator answers with memory that is not in use. *)
Definition fresh (st : heap) (answers : list Z) : Prop :=
  forall q, q ∈ answers -> q <> NULL -> nodes st !! q = None /\ blocks st !! q = None.

Definition zeroed (n : Arena) : Arena := mkArena (_region n) 0 (_alloc_size n) (_next n).

Definition released (n : Arena) : Arena := mkArena NULL (_size n) (_alloc_size n) NULL.

(** [st'] is [st] with [f] applied to the nodes at [l], all else kept. *)
Definition nodes_mapped (f : Arena -> Arena) (l : list Z) (st st' : heap) : Prop :=
  (forall a n, a ∈ l -> nodes st !! a = Some n -> nodes st' !! a = Some (f n)) /\
  (forall a, a ∉ l -> nodes st' !! a = nodes st !! a).

(** Capacity of the region at [a] is at least [size]. *)
Definition capacity_at_least (m : gmap Z Arena) (size : Z) (a : Z) : bool :=
  match m !! a with
  | Some n => size <=? _alloc_size n
  | None => false
  end.

(** The ways a call with a non-zero request ends: served by the first fit;
    refused because the doubling overflows, because the backing allocator has
    no buffer, or has no memory for a chain node; served by a new buffer put
    into the blank tail, or by a new node linked after the tail. *)
Inductive alloc_outcome (DEF : Z) (answers : list Z) (st : heap) (size : Z) (l : list Z)
    : Z -> heap -> Prop :=
  | out_fast a n :
      first_fit (nodes st) size l = Some a -> nodes st !! a = Some n ->
      alloc_outcome DEF answers st size l
        (ptr_add (_region n) (_size n))
        (store st a (mkArena (_region n) (wrap (_size n + size)) (_alloc_size n) (_next n)))
  | out_overflow c :
      first_fit (nodes st) size l = None ->
      least_doubling DEF size c -> UINTPTR_MAX1 <= c ->
      alloc_outcome DEF answers st size l NULL st
  | out_no_buffer c :
      first_fit (nodes st) size l = None ->
      least_doubling DEF size c -> c < UINTPTR_MAX1 ->
      hd NULL answers = NULL ->
      alloc_outcome DEF answers st size l NULL st
  | out_no_node c t n p rest :
      first_fit (nodes st) size l = None ->
      least_doubling DEF size c -> c < UINTPTR_MAX1 ->
      last l = Some t -> nodes st !! t = Some n -> _region n <> NULL ->
      answers = p :: rest -> p <> NULL -> hd NULL rest = NULL ->
      alloc_outcome DEF answers st size l NULL st
  | out_in_place c t n p rest :
      first_fit (nodes st) size l = None ->
      least_doubling DEF size c -> c < UINTPTR_MAX1 ->
      last l = Some t -> nodes st !! t = Some n -> _region n = NULL ->
      answers = p :: rest -> p <> NULL ->
      alloc_outcome DEF answers st size l p
        (mkHeap (<[t := mkArena p (wrap (_size n + size)) c (_next n)]> (nodes st))
                (<[p := c]> (blocks st)))
  | out_append c t n p q rest :
      first_fit (nodes st) size l = None ->
      least_doubling DEF size c -> c < UINTPTR_MAX1 ->
      last l = Some t -> nodes st !! t = Some n -> _region n <> NULL ->
      answers = p :: q :: rest -> p <> NULL -> q <> NULL ->
      alloc_outcome DEF answers st size l p
        (mkHeap (<[q := mkArena p size c NULL]>
                   (<[t := mkArena (_region n) (_size n) (_alloc_size n) q]> (nodes st)))
                (<[q := sizeof_Arena]> (<[p := c]> (blocks st)))).

(** The shape of a region between [Arena_init] and [Arena_free]. *)
Definition region_ok (n : Arena) : Prop :=
  0 <= _size n <= _alloc_size n /\ _alloc_size n < UINTPTR_MAX1 /\
  (_region n = NULL <-> _alloc_size n = 0).

Definition arena_ok (st : heap) (h : Z) (l : list Z) : Prop :=
  chain (nodes st) h l /\ l <> [] /\
  forall a n, a ∈ l -> nodes st !! a = Some n -> region_ok n.

(** [_size] of the region at [a]; a node that does not exist yet has handed
    out nothing. *)
Definition used_at (st : heap) (a : Z) : Z :=
  match nodes st !! a with
  | Some n => _size n
  | None => 0
  end.

Section Reach.

Variable DEF : Z.
Variable h : Z.

(** States of the arena at [h] that calls of [Arena_init], [Arena_alloc] and
    [Arena_reset] lead to. *)
Inductive reachable : heap -> Prop :=
  | reach_init st0 st :
      Arena_init st0 h = Ret st -> reachable st
  | reach_alloc st fuel answers size p st' :
      reachable st -> fresh st answers -> 0 <= size < UINTPTR_MAX1 ->
      Arena_alloc DEF fuel answers st h size = Ret (p, st') -> reachable st'
  | reach_reset st fuel st' :
      reachable st -> Arena_reset fuel st h = Ret st' -> reachable st'.

(** A run of successful, non-zero allocations. *)
Inductive allocations : heap -> heap -> Prop :=
  | allocations_nil st : allocations st st
  | allocations_cons st fuel answers size p st1 st2 :
      fresh st answers -> 0 < size < UINTPTR_MAX1 ->
      Arena_alloc DEF fuel answers st h size = Ret (p, st1) -> p <> NULL ->
      allocations st1 st2 -> allocations st st2.

End Reach.

(** ** The run of examples/arena.c *)

(** [COOL_ARENA_DEF_SIZE] is 16 there; the [Arena] is a local of [main], here
    at address 1000; the backing allocator answers 5000, 6000 and 7000. *)
Definition ex_head : Z := 1000.

(** After [Arena_init(&arena)]. *)
Definition ex_blank : heap := store empty_heap ex_head (mkArena NULL 0 0 NULL).

(** After [Arena_alloc(&arena, 14)]. *)
Definition ex_one : heap :=
  mkHeap {[ ex_head := mkArena 5000 4 16 NULL ]} {[ 5000 := 16 ]}.

(** A head region filled to its capacity. *)
Definition ex_full : heap :=
  mkHeap {[ ex_head := mkArena 5000 16 16 NULL ]} {[ 5000 := 16 ]}.

(** After [Arena_alloc(&arena, 14); Arena_free(&arena)]. *)
Definition ex_released : heap :=
  mkHeap {[ ex_head := mkArena NULL 4 16 NULL ]} ∅.

(** The answers of the backing allocator are pointers. *)
Definition pointers (answers : list Z) : Prop :=
  forall q, q ∈ answers -> 0 <= q < UINTPTR_MAX1.

(** After [Arena_alloc(&arena, 14)] twice. *)
Definition ex_two : heap :=
  mkHeap {[ ex_head := mkArena 5000 8 16 NULL ]} {[ 5000 := 16 ]}.

(** * list.h and region.h: growable buffers

    [region.h] is [list.h] with [Region] written for [List]
    ([RegionType], [Region_init_sized], [Region_push], ...): the bodies of the
    macros are the same. The macros act on a struct [R] in place; here each
    takes the struct and the memory and returns both. [size_t] is 64 bits
    wide, like [uintptr_t]. A read or write outside the block [buf] points
    to, through [NULL], or of a cell never written, is a [Fault]. *)

Module ListH.

Section Typed.

(** [T] of [ListType(N, T)], its [sizeof], and the value [0] in [T]. *)
Variable T : Type.
Variable sizeof_T : Z.
Variable zero : T.

Record List : Type := mkList {
  buf : Z;          (* T *buf *)
  _alloc_size : Z;  (* size_t _alloc_size *)
  size : Z;         (* size_t size *)
  error : Z         (* int error *)
}.

(** A block of the backing allocator: its size in bytes and the elements
    written to it, by index. *)
Record block : Type := mkBlock {
  bsize : Z;
  cells : gmap Z T
}.

(** [p[i]] lies inside the block. *)
Definition inb (b : block) (i : Z) : bool :=
  (0 <=? i) && ((i + 1) * sizeof_T <=? bsize b).

Definition read (m : gmap Z block) (p i : Z) : res T :=
  if p =? NULL then Fault
  else match m !! p with
       | None => Fault
       | Some b =>
           if inb b i then
             match cells b !! i with
             | Some v => Ret v
             | None => Fault
             end
           else Fault
       end.

Definition write (m : gmap Z block) (p i : Z) (v : T) : res (gmap Z block) :=
  if p =? NULL then Fault
  else match m !! p with
       | None => Fault
       | Some b =>
           if inb b i then Ret (<[p := mkBlock (bsize b) (<[i := v]> (cells b))]> m)
           else Fault
       end.

(** [COOL_LIST_FUNC_ALLOC(n)] answering [answer] ([NULL]: failure). *)
Definition malloc (answer n : Z) (m : gmap Z block) : Z * gmap Z block :=
  if answer =? NULL then (NULL, m)
  else (answer, <[answer := mkBlock n ∅]> m).

(** [COOL_LIST_FUNC_REALLOC(p, n)] answering [answer]: on failure the old
    block stays; otherwise the old block is given up and the new one holds
    the elements of the old that fit in [n] bytes. *)
Definition realloc (answer p n : Z) (m : gmap Z block) : Z * gmap Z block :=
  if answer =? NULL then (NULL, m)
  else
    let old := if p =? NULL then ∅
               else match m !! p with
                    | Some b => cells b
                    | None => ∅
                    end in
    let kept := filter (fun iv : Z * T => (iv.1 + 1) * sizeof_T <= n) old in
    (answer, <[answer := mkBlock n kept]> (if p =? NULL then m else delete p m)).

(** [COOL_LIST_FUNC_FREE(p)]. *)
Definition free (p : Z) (m : gmap Z block) : gmap Z block :=
  if p =? NULL then m else delete p m.

Definition List_init_sized (answer : Z) (S : Z) (m : gmap Z block)
    : gmap Z block * List :=
  let '(p, m) := malloc answer (wrap S) m in
  (m, mkList p (wrap S) 0 (if p =? NULL then 1 else 0)).

Section Init.

(** [COOL_LIST_DEF_SIZE] (512 unless overridden; the examples set it to 8). *)
Variable COOL_LIST_DEF_SIZE : Z.

Definition List_init (answer : Z) (m : gmap Z block) : gmap Z block * List :=
  List_init_sized answer COOL_LIST_DEF_SIZE m.

End Init.

Definition List_free (R : List) (m : gmap Z block) : gmap Z block * List :=
  (free (buf R) m, mkList NULL (_alloc_size R) (size R) (error R)).

Definition List_push (answer : Z) (R : List) (V : T) (m : gmap Z block)
    : res (gmap Z block * List) :=
  let R := mkList (buf R) (_alloc_size R) (size R) 0 in
  if size R >=? wrap (_alloc_size R - 1) then
    let '(_list_temp, m) :=
      realloc answer (buf R) (wrap (Z.shiftl (_alloc_size R) 1)) m in
    if _list_temp =? NULL then
      Ret (m, mkList (buf R) (_alloc_size R) (size R) 1)
    else
      let R := mkList _list_temp (wrap (Z.shiftl (_alloc_size R) 1)) (size R) (error R) in
      m ← write m (buf R) (size R) V;
      Ret (m, mkList (buf R) (_alloc_size R) (wrap (size R + 1)) (error R))
  else
    m ← write m (buf R) (size R) V;
    Ret (m, mkList (buf R) (_alloc_size R) (wrap (size R + 1)) (error R)).

Definition List_pop (R : List) (m : gmap Z block) : res (T * List) :=
  let R := mkList (buf R) (_alloc_size R) (wrap (size R - 1)) (error R) in
  v ← read m (buf R) (size R);
  Ret (v, R).

Definition List_drop (R : List) (m : gmap Z block) : res (gmap Z block * List) :=
  let R := mkList (buf R) (_alloc_size R) (wrap (size R - 1)) (error R) in
  m ← write m (buf R) (size R) zero;
  Ret (m, R).

(** The macros of region.h. *)
Definition Region_init_sized := List_init_sized.
Definition Region_init := List_init.
Definition Region_free := List_free.
Definition Region_push := List_push.
Definition Region_pop := List_pop.
Definition Region_drop := List_drop.

(** The list holds the elements [l], oldest first. *)
Definition holds (m : gmap Z block) (R : List) (l : list T) : Prop :=
  size R = Z.of_nat (length l) /\
  exists b, m !! buf R = Some b /\
    forall i v, l !! i = Some v -> cells b !! Z.of_nat i = Some v.

(** The list owns a block of [_alloc_size] bytes and keeps one slot spare. *)
Definition list_ok (m : gmap Z block) (R : List) : Prop :=
  buf R <> NULL /\ 0 < _alloc_size R < UINTPTR_MAX1 /\
  0 <= size R <= _alloc_size R - 1 /\
  exists b, m !! buf R = Some b /\ bsize b = _alloc_size R.

End Typed.

(** Lists of [char] (one byte each, written as their codes) and of [int]
    (four bytes each) for the examples: a list of capacity 2 holding ['H'],
    the same after pushing ['e'] (moved to 6000 and grown), an empty list of
    capacity 8, and a list of [int] in 16 bytes holding four of them. *)
Definition ex_full_mem : gmap Z (block Z) := {[ 5000 := mkBlock Z 2 {[ 0 := 72 ]} ]}.
Definition ex_full_list : List := mkList 5000 2 1 0.
Definition ex_grown_mem : gmap Z (block Z) :=
  {[ 6000 := mkBlock Z 4 (<[1 := 101]> {[ 0 := 72 ]}) ]}.
Definition ex_grown_list : List := mkList 6000 4 2 0.
Definition ex_empty_mem : gmap Z (block Z) := {[ 5000 := mkBlock Z 8 ∅ ]}.
Definition ex_empty_list : List := mkList 5000 8 0 0.
Definition ex_int_mem : gmap Z (block Z) :=
  {[ 5000 := mkBlock Z 16 (<[3 := 4]> (<[2 := 3]> (<[1 := 2]> {[ 0 := 1 ]}))) ]}.
Definition ex_int_list : List := mkList 5000 16 4 0.

End ListH.

(** Free space of a region in the words of the description: capacity minus
    used, as integers. *)
Definition free_space (n : Arena) : Z := _alloc_size n - _size n.

(** First region, in chain order, whose free space is at least [size]. *)
Definition first_with_room (m : gmap Z Arena) (size : Z) (l : list Z) : option Z :=
  find (fun a => match m !! a with
                 | Some n => size <=? free_space n
                 | None => false
                 end) l.

(** * Proofs *)

(** ** Arithmetic of [uintptr_t] *)

Lemma wrap_small z : 0 <= z < UINTPTR_MAX1 -> wrap z = z.
Proof. intros H. unfold wrap. now apply Z.mod_small. Qed.

Lemma wrap_range z : 0 <= wrap z < UINTPTR_MAX1.
Proof. unfold wrap. apply Z.mod_pos_bound. reflexivity. Qed.

Lemma units_bounds size :
  0 <= size < UINTPTR_MAX1 -> units size = size / 4 + 1 /\ 1 <= units size <= 2 ^ 62.
Proof.
  intros H. unfold units. rewrite Z.shiftr_div_pow2 by lia.
  change (2 ^ 2) with 4.
  assert (0 <= size / 4 < 2 ^ 62).
  { split; [apply Z.div_pos; lia|].
    apply Z.div_lt_upper_bound; [lia|]. unfold UINTPTR_MAX1 in H. lia. }
  rewrite wrap_small; unfold UINTPTR_MAX1; lia.
Qed.

(** ** Facts about chains *)

Lemma chain_functional m a l1 l2 : chain m a l1 -> chain m a l2 -> l1 = l2.
Proof.
  intros H1. revert l2.
  induction H1 as [|a n l Ha Hn _ IH]; intros l2 H2; inversion H2; subst; try congruence.
  match goal with H : m !! a = Some _ |- _ => rewrite Hn in H; injection H as <- end.
  f_equal. now apply IH.
Qed.

Lemma chain_suffix m a l b :
  chain m a l -> b ∈ l -> exists l1 l2, l = l1 ++ b :: l2 /\ chain m b (b :: l2).
Proof.
  induction 1 as [|a n l Ha Hn Hc IH]; intros Hb.
  - now apply elem_of_nil in Hb.
  - apply elem_of_cons in Hb as [->|Hb].
    + exists [], l. split; [reflexivity|]. econstructor; eauto.
    + destruct (IH Hb) as (l1 & l2 & -> & Hc2).
      exists (a :: l1), l2. split; [reflexivity|assumption].
Qed.

Lemma chain_head_fresh m a l : chain m a (a :: l) -> a ∉ l.
Proof.
  intros Hc Hin.
  destruct (chain_suffix m a (a :: l) a Hc) as (l1 & l2 & Heq & Hc2).
  { now apply elem_of_cons; right. }
  inversion Hc as [|? n ? ? Hn Hc']; subst.
  destruct (chain_suffix m _ l a Hc' Hin) as (k1 & k2 & -> & Hk).
  pose proof (chain_functional _ _ _ _ Hc Hk) as E.
  apply (f_equal (@length Z)) in E. simpl in E. rewrite length_app in E. simpl in E. lia.
Qed.

Lemma chain_NoDup m a l : chain m a l -> NoDup l.
Proof.
  induction 1 as [|a n l Ha Hn Hc IH]; [constructor|].
  constructor; [|assumption].
  eapply chain_head_fresh. econstructor; eauto.
Qed.

Lemma chain_nonnull m a l b : chain m a l -> b ∈ l -> b <> NULL.
Proof.
  induction 1 as [|a n l Ha Hn Hc IH]; intros Hb.
  - now apply elem_of_nil in Hb.
  - apply elem_of_cons in Hb as [->|Hb]; auto.
Qed.

Lemma chain_lookup m a l b : chain m a l -> b ∈ l -> is_Some (m !! b).
Proof.
  induction 1 as [|a n l Ha Hn Hc IH]; intros Hb.
  - now apply elem_of_nil in Hb.
  - apply elem_of_cons in Hb as [->|Hb]; eauto.
Qed.

(** A chain survives any change of the map that keeps the [_next] field of
    its own nodes. *)
Lemma chain_frame m m' a l :
  chain m a l ->
  (forall b n, b ∈ l -> m !! b = Some n ->
     exists n', m' !! b = Some n' /\ _next n' = _next n) ->
  chain m' a l.
Proof.
  induction 1 as [|a n l Ha Hn Hc IH]; intros Hf; [constructor|].
  destruct (Hf a n) as (n' & Hn' & Hnx); [apply elem_of_cons; auto|assumption|].
  econstructor; eauto.
  rewrite Hnx. apply IH. intros b nb Hb Hnb. apply Hf; [apply elem_of_cons; auto|assumption].
Qed.

Lemma chain_last_next m a l t n :
  chain m a l -> last l = Some t -> m !! t = Some n -> _next n = NULL.
Proof.
  induction 1 as [|a na l Ha Hn Hc IH]; intros Hl Ht; [discriminate|].
  destruct l as [|b l'].
  - injection Hl as <-. rewrite Hn in Ht. injection Ht as <-. now inversion Hc.
  - apply IH; auto.
Qed.

(** Appending a node after the tail. *)
Lemma chain_snoc m a l t n q nq :
  chain m a l -> last l = Some t -> m !! t = Some n -> m !! q = None ->
  _next nq = NULL -> q <> NULL ->
  chain (<[q := nq]> (<[t := mkArena (_region n) (_size n) (_alloc_size n) q]> m)) a (l ++ [q]).
Proof.
  intros Hc. revert t n.
  induction Hc as [|a na l Ha Hn Hc IH]; intros t n Hl Ht Hq Hnq Hq0; [discriminate|].
  assert (a <> q) by congruence.
  destruct l as [|b l'].
  - injection Hl as <-. rewrite Hn in Ht. injection Ht as <-.
    inversion Hc as [E|]; subst. simpl.
    econstructor; [assumption| |].
    + rewrite lookup_insert_ne by congruence. apply lookup_insert_eq.
    + simpl. econstructor; [assumption|apply lookup_insert_eq|]. rewrite Hnq. constructor.
  - assert (Hat : a <> t).
    { intros ->. apply (chain_head_fresh m t (b :: l')).
      - exact (chain_link m t na (b :: l') Ha Hn Hc).
      - change (last (b :: l') = Some t) in Hl.
        apply list_elem_of_lookup. rewrite last_lookup in Hl. eauto. }
    simpl. econstructor; [assumption| |].
    + rewrite !lookup_insert_ne by congruence. exact Hn.
    + eapply IH; eauto.
Qed.

(** ** The walk *)

Lemma walk_spec fuel st h size l :
  chain (nodes st) h l -> l <> [] -> (length l <= fuel)%nat ->
  Arena_alloc_walk fuel st h size = Ret (walk_stop (nodes st) size l).
Proof.
  intros Hc. revert fuel.
  induction Hc as [|a n l Ha Hn Hc IH]; intros fuel Hne Hfuel; [congruence|].
  destruct fuel as [|fuel]; [simpl in Hfuel; lia|]. simpl in Hfuel.
  cbn [Arena_alloc_walk]. unfold load.
  destruct (Z.eqb_spec a NULL) as [|_]; [contradiction|].
  rewrite Hn. cbn [mbind res_bind].
  unfold walk_stop, first_fit. cbn [find]. unfold room_at at 1. rewrite Hn.
  destruct (has_room size n) eqn:Hroom.
  - now rewrite orb_true_r.
  - rewrite orb_false_r.
    destruct (Z.eqb_spec (_next n) NULL) as [E|E].
    + rewrite E in Hc. inversion Hc; subst; [reflexivity|contradiction].
    + destruct l as [|b l']; [inversion Hc; congruence|].
      rewrite IH; [|discriminate|lia]. reflexivity.
Qed.

Lemma first_fit_Some m size l a :
  first_fit m size l = Some a ->
  exists l1 l2 n, l = l1 ++ a :: l2 /\ m !! a = Some n /\ has_room size n = true /\
    forall b, b ∈ l1 -> room_at m size b = false.
Proof.
  unfold first_fit. induction l as [|b l IH]; [discriminate|]. cbn [find].
  destruct (room_at m size b) eqn:Hb.
  - intros [= <-]. unfold room_at in Hb. destruct (m !! b) as [n|] eqn:Hn; [|discriminate].
    exists [], l, n. repeat split; auto. intros c Hc. now apply elem_of_nil in Hc.
  - intros H. destruct (IH H) as (l1 & l2 & n & -> & Hn & Hr & Hpre).
    exists (b :: l1), l2, n. repeat split; auto.
    intros c Hc. apply elem_of_cons in Hc as [->|Hc]; auto.
Qed.

Lemma first_fit_None m size l :
  first_fit m size l = None -> forall b, b ∈ l -> room_at m size b = false.
Proof.
  unfold first_fit. intros H b Hb.
  apply list_elem_of_In in Hb. exact (find_none _ _ H b Hb).
Qed.

Lemma last_default_Some (l : list Z) : l <> [] -> last l = Some (List.last l NULL).
Proof.
  induction l as [|a l IH]; [congruence|]. intros _.
  destruct l as [|b l']; [reflexivity|].
  change (last (b :: l') = Some (List.last (b :: l') NULL)). apply IH. discriminate.
Qed.

(** ** The doubling loop *)

Lemma shiftl1_wrap c :
  0 < c < UINTPTR_MAX1 ->
  (2 * c < UINTPTR_MAX1 /\ wrap (Z.shiftl c 1) = 2 * c) \/
  (UINTPTR_MAX1 <= 2 * c /\ wrap (Z.shiftl c 1) = 2 * c - UINTPTR_MAX1).
Proof.
  intros H. rewrite Z.shiftl_mul_pow2 by lia. change (2 ^ 1) with 2.
  destruct (Z_lt_le_dec (2 * c) UINTPTR_MAX1) as [Hlt|Hge].
  - left. split; [assumption|]. rewrite wrap_small; lia.
  - right. split; [assumption|]. unfold wrap. symmetry.
    apply (Z.mod_unique _ _ 1); lia.
Qed.

Lemma capacity_spec fuel c size :
  0 < c < UINTPTR_MAX1 -> UINTPTR_MAX1 <= c * 2 ^ Z.of_nat fuel ->
  exists k, 0 <= k /\ (forall i, 0 <= i < k -> c * 2 ^ i < size) /\
    ((size <= c * 2 ^ k /\ c * 2 ^ k < UINTPTR_MAX1 /\
      Arena_alloc_capacity fuel c size = Ret (Some (c * 2 ^ k))) \/
     (c * 2 ^ k < size /\ c * 2 ^ k < UINTPTR_MAX1 <= c * 2 ^ (k + 1) /\
      Arena_alloc_capacity fuel c size = Ret None)).
Proof.
  revert c. induction fuel as [|fuel IH]; intros c Hc Hfuel.
  - simpl in Hfuel. lia.
  - cbn [Arena_alloc_capacity].
    destruct (Z.ltb_spec c size) as [Hlt|Hge].
    + destruct (shiftl1_wrap c Hc) as [[H2 ->]|[H2 ->]].
      * destruct (Z.gtb_spec c (2 * c)) as [|_]; [lia|].
        destruct (IH (2 * c)) as (k & Hk & Hbelow & Hres); [lia| |].
        { rewrite Nat2Z.inj_succ, Z.pow_succ_r in Hfuel by lia. lia. }
        assert (Hpow : forall j, 0 <= j -> c * 2 ^ (j + 1) = 2 * c * 2 ^ j).
        { intros j Hj. rewrite Z.pow_add_r by lia. change (2 ^ 1) with 2. ring. }
        exists (k + 1). split; [lia|]. split.
        { intros i Hi. destruct (Z.eq_dec i 0) as [->|].
          - rewrite Z.pow_0_r. lia.
          - replace i with ((i - 1) + 1) by ring. rewrite Hpow by lia.
            apply Hbelow. lia. }
        rewrite (Hpow (k + 1)) by lia. rewrite (Hpow k) by lia. exact Hres.
      * destruct (Z.gtb_spec c (2 * c - UINTPTR_MAX1)) as [_|]; [|lia].
        exists 0. split; [lia|]. split; [intros; lia|]. right.
        rewrite Z.pow_0_r. change (2 ^ (0 + 1)) with 2. repeat split; try lia.
    + exists 0. split; [lia|]. split; [intros; lia|]. left.
      rewrite Z.pow_0_r, Z.mul_1_r. repeat split; try lia.
Qed.

Lemma doubling_mono def j k : 0 < def -> 0 <= j <= k -> def * 2 ^ j <= def * 2 ^ k.
Proof.
  intros Hd Hjk. apply Z.mul_le_mono_nonneg_l; [lia|].
  apply Z.pow_le_mono_r; lia.
Qed.

Lemma least_doubling_unique def size c1 c2 :
  least_doubling def size c1 -> least_doubling def size c2 -> c1 = c2.
Proof.
  intros (D1 & S1 & L1) (D2 & S2 & L2).
  pose proof (L1 c2 D2 S2). pose proof (L2 c1 D1 S1). lia.
Qed.

Lemma capacity_least def fuel size :
  0 < def < UINTPTR_MAX1 -> size < UINTPTR_MAX1 -> (64 <= fuel)%nat ->
  exists c, least_doubling def size c /\
    (c < UINTPTR_MAX1 -> Arena_alloc_capacity fuel def size = Ret (Some c)) /\
    (UINTPTR_MAX1 <= c -> Arena_alloc_capacity fuel def size = Ret None).
Proof.
  intros Hd Hs Hfuel.
  destruct (capacity_spec fuel def size Hd) as (k & Hk & Hbelow & Hres).
  { assert (2 ^ 64 <= 2 ^ Z.of_nat fuel) by (apply Z.pow_le_mono_r; lia).
    unfold UINTPTR_MAX1 in *. nia. }
  assert (Hfrom : forall j, 0 <= j -> size <= def * 2 ^ j -> k <= j).
  { intros j Hj Hsj. destruct (Z_lt_le_dec j k) as [Hlt|]; [|assumption].
    specialize (Hbelow j). lia. }
  destruct Hres as [(Hle & Hlt & Hrun)|(Hlt & Hov & Hrun)].
  - exists (def * 2 ^ k). split; [|split; [auto|lia]].
    split; [exists k; auto|]. split; [assumption|].
    intros c' (j & Hj & ->) Hsj. apply doubling_mono; [lia|]. split; [lia|auto].
  - exists (def * 2 ^ (k + 1)). split; [|split; [lia|auto]].
    split; [exists (k + 1); split; [lia|reflexivity]|]. split; [lia|].
    intros c' (j & Hj & ->) Hsj. apply doubling_mono; [lia|].
    pose proof (Hfrom j Hj Hsj). destruct (Z.eq_dec j k) as [->|]; lia.
Qed.

(** A converted request never drives the doubling into overflow. *)
Lemma capacity_units def fuel size :
  0 < def < UINTPTR_MAX1 -> 0 <= size < UINTPTR_MAX1 -> (64 <= fuel)%nat ->
  exists c, least_doubling def (units size) c /\ c < UINTPTR_MAX1 /\
    Arena_alloc_capacity fuel def (units size) = Ret (Some c).
Proof.
  intros Hd Hs Hfuel. destruct (units_bounds size Hs) as (_ & Hu).
  destruct (capacity_spec fuel def (units size) Hd) as (k & Hk & Hbelow & Hres).
  { assert (2 ^ 64 <= 2 ^ Z.of_nat fuel) by (apply Z.pow_le_mono_r; lia).
    unfold UINTPTR_MAX1 in *. nia. }
  destruct Hres as [(Hle & Hlt & Hrun)|(Hlt & Hov & Hrun)].
  - exists (def * 2 ^ k). split; [|auto].
    split; [exists k; auto|]. split; [assumption|].
    intros c' (j & Hj & ->) Hsj. apply doubling_mono; [lia|]. split; [lia|].
    destruct (Z_lt_le_dec j k) as [Hjk|]; [|assumption]. specialize (Hbelow j). lia.
  - exfalso. rewrite Z.pow_add_r in Hov by lia. change (2 ^ 1) with 2 in Hov.
    unfold UINTPTR_MAX1 in Hov. lia.
Qed.

(** ** What one call of [Arena_alloc] does *)

Lemma load_store st a n : a <> NULL -> load (store st a n) a = Ret n.
Proof.
  intros Ha. unfold load, store. cbn [nodes].
  destruct (Z.eqb_spec a NULL); [contradiction|]. now rewrite lookup_insert_eq.
Qed.

Lemma load_lookup st a n : a <> NULL -> nodes st !! a = Some n -> load st a = Ret n.
Proof.
  intros Ha Hn. unfold load. destruct (Z.eqb_spec a NULL); [contradiction|]. now rewrite Hn.
Qed.

Lemma update_spec st a n size p c :
  a <> NULL -> nodes st !! a = Some n ->
  Arena_alloc_update st a size p c =
    Ret (p, store st a (mkArena p (wrap (_size n + size)) c (_next n))).
Proof.
  intros Ha Hn. unfold Arena_alloc_update.
  rewrite (load_lookup st a n Ha Hn). cbn [mbind res_bind].
  rewrite load_store by assumption. reflexivity.
Qed.

Section AllocSpec.

Variable DEF : Z.

Hypothesis DEF_range : 0 < DEF < UINTPTR_MAX1.

Lemma Arena_alloc_units_outcome fuel answers st h size l :
  chain (nodes st) h l -> l <> [] -> fresh st answers ->
  0 < size < UINTPTR_MAX1 -> (64 + length l <= fuel)%nat ->
  exists p st', Arena_alloc_units DEF fuel answers st h size = Ret (p, st') /\
    alloc_outcome DEF answers st size l p st'.
Proof.
  intros Hc Hne Hfresh Hsize Hfuel.
  unfold Arena_alloc_units. rewrite (walk_spec fuel st h size l Hc Hne) by lia.
  cbn [mbind res_bind]. unfold walk_stop.
  destruct (first_fit (nodes st) size l) as [a|] eqn:Hfit.
  - destruct (first_fit_Some _ _ _ _ Hfit) as (l1 & l2 & n & El & Hn & Hroom & _).
    assert (Ha : a ∈ l) by (rewrite El; apply elem_of_app; right; apply elem_of_cons; auto).
    rewrite (load_lookup st a n (chain_nonnull _ _ _ _ Hc Ha) Hn). cbn [mbind res_bind].
    rewrite Hroom. eexists _, _. split; [reflexivity|]. now apply out_fast.
  - pose proof (last_default_Some l Hne) as Hlast. set (t := List.last l NULL) in *.
    assert (Ht : t ∈ l).
    { apply list_elem_of_lookup. rewrite last_lookup in Hlast. eauto. }
    pose proof (chain_nonnull _ _ _ _ Hc Ht) as Ht0.
    destruct (chain_lookup _ _ _ _ Hc Ht) as [n Hn].
    rewrite (load_lookup st t n Ht0 Hn). cbn [mbind res_bind].
    pose proof (first_fit_None _ _ _ Hfit t Ht) as Hroom.
    unfold room_at in Hroom. rewrite Hn in Hroom. rewrite Hroom.
    rewrite (wrap_small DEF) by lia.
    destruct (capacity_least DEF fuel size DEF_range) as (c & Hleast & Hok & Hov);
      [lia|lia|].
    destruct (Z_lt_le_dec c UINTPTR_MAX1) as [Hc64|Hc64].
    2:{ rewrite (Hov Hc64). cbn [mbind res_bind].
        eexists _, _. split; [reflexivity|]. now apply (out_overflow _ _ _ _ _ c). }
    rewrite (Hok Hc64). cbn [mbind res_bind].
    destruct answers as [|p rest].
    { cbn [malloc]. change (NULL =? NULL) with true. cbv iota.
      eexists _, _. split; [reflexivity|]. now apply (out_no_buffer _ _ _ _ _ c). }
    cbn [malloc]. destruct (Z.eqb_spec p NULL) as [Ep|Ep].
    { change (NULL =? NULL) with true. cbv iota.
      eexists _, _. split; [reflexivity|]. now apply (out_no_buffer _ _ _ _ _ c). }
    destruct (Z.eqb_spec p NULL) as [|_]; [contradiction|].
    destruct (Z.eqb_spec (_region n) NULL) as [Er|Er]; cbn [negb].
    { rewrite (update_spec _ t n) by assumption.
      eexists _, _. split; [reflexivity|]. unfold store. cbn [nodes blocks].
      now apply (out_in_place _ _ _ _ _ c t n p rest). }
    assert (Hp : blocks st !! p = None).
    { apply Hfresh; [apply elem_of_cons; auto|assumption]. }
    assert (Hst : mkHeap (nodes st) (delete p (<[p:=c]> (blocks st))) = st).
    { rewrite delete_insert_id by assumption. now destruct st. }
    destruct rest as [|q rest'].
    { cbn [malloc]. change (NULL =? NULL) with true. cbv iota.
      unfold free. destruct (Z.eqb_spec p NULL) as [|_]; [contradiction|].
      cbn [nodes blocks]. rewrite Hst.
      eexists _, _. split; [reflexivity|]. now apply (out_no_node _ _ _ _ _ c t n p []). }
    cbn [malloc]. destruct (Z.eqb_spec q NULL) as [Eq|Eq].
    { change (NULL =? NULL) with true. cbv iota.
      unfold free. destruct (Z.eqb_spec p NULL) as [|_]; [contradiction|].
      cbn [nodes blocks]. rewrite Hst.
      eexists _, _. split; [reflexivity|].
      now apply (out_no_node _ _ _ _ _ c t n p (q :: rest')). }
    destruct (Z.eqb_spec q NULL) as [|_]; [contradiction|].
    assert (Hq : nodes st !! q = None).
    { apply Hfresh; [apply elem_of_cons; right; apply elem_of_cons; auto|assumption]. }
    assert (Hqt : q <> t) by congruence.
    unfold Arena_init. destruct (Z.eqb_spec q NULL) as [|_]; [contradiction|].
    cbn [mbind res_bind].
    rewrite (load_lookup _ t n Ht0).
    2:{ unfold store. cbn [nodes]. now rewrite lookup_insert_ne. }
    cbn [mbind res_bind].
    rewrite (update_spec _ q (mkArena NULL 0 0 NULL)); [|assumption|].
    2:{ unfold store. cbn [nodes]. rewrite lookup_insert_ne by congruence.
        apply lookup_insert_eq. }
    eexists _, _. split; [reflexivity|].
    unfold store. cbn [nodes blocks _size _next].
    rewrite (insert_insert_ne _ t q) by congruence.
    rewrite insert_insert_eq. rewrite (wrap_small (0 + size)) by lia.
    now apply (out_append _ _ _ _ _ c t n p q rest').
Qed.

End AllocSpec.

(** ** More fuel changes no result *)

Lemma walk_fuel f f' st a size r :
  Arena_alloc_walk f st a size = Ret r -> (f <= f')%nat ->
  Arena_alloc_walk f' st a size = Ret r.
Proof.
  revert f' a. induction f as [|f IH]; intros f' a H Hle; [discriminate|].
  destruct f' as [|f']; [lia|]. cbn [Arena_alloc_walk] in *.
  destruct (load st a) as [n| |]; cbn [mbind res_bind] in *; try discriminate.
  destruct ((_next n =? NULL) || has_room size n); [assumption|].
  apply IH; [assumption|lia].
Qed.

Lemma capacity_fuel f f' c size r :
  Arena_alloc_capacity f c size = Ret r -> (f <= f')%nat ->
  Arena_alloc_capacity f' c size = Ret r.
Proof.
  revert f' c. induction f as [|f IH]; intros f' c H Hle; [discriminate|].
  destruct f' as [|f']; [lia|]. cbn [Arena_alloc_capacity] in *.
  destruct (c <? size); [|assumption].
  destruct (c >? wrap (Z.shiftl c 1)); [assumption|].
  apply IH; [assumption|lia].
Qed.

Lemma Arena_alloc_units_fuel DEF f f' answers st h size r :
  Arena_alloc_units DEF f answers st h size = Ret r -> (f <= f')%nat ->
  Arena_alloc_units DEF f' answers st h size = Ret r.
Proof.
  unfold Arena_alloc_units. intros H Hle.
  destruct (Arena_alloc_walk f st h size) as [a| |] eqn:Hw; try discriminate.
  rewrite (walk_fuel _ _ _ _ _ _ Hw Hle). cbn [mbind res_bind] in *.
  destruct (load st a) as [n| |]; cbn [mbind res_bind] in *; try discriminate.
  destruct (has_room size n); [assumption|].
  destruct (Arena_alloc_capacity f (wrap DEF) size) as [c| |] eqn:Hcap; try discriminate.
  rewrite (capacity_fuel _ _ _ _ _ Hcap Hle). exact H.
Qed.

Lemma Arena_reset_fuel f f' st a r :
  Arena_reset f st a = Ret r -> (f <= f')%nat -> Arena_reset f' st a = Ret r.
Proof.
  revert f' st a. induction f as [|f IH]; intros f' st a H Hle; [discriminate|].
  destruct f' as [|f']; [lia|]. cbn [Arena_reset] in *.
  destruct (a =? NULL); [assumption|].
  destruct (load st a) as [n| |]; cbn [mbind res_bind] in *; try discriminate.
  apply IH; [assumption|lia].
Qed.

Lemma Arena_alloc_units_inv DEF fuel answers st h size l p st' :
  0 < DEF < UINTPTR_MAX1 ->
  chain (nodes st) h l -> l <> [] -> fresh st answers -> 0 < size < UINTPTR_MAX1 ->
  Arena_alloc_units DEF fuel answers st h size = Ret (p, st') ->
  alloc_outcome DEF answers st size l p st'.
Proof.
  intros HD Hc Hne Hfresh Hsize Hrun.
  destruct (Arena_alloc_units_outcome DEF HD (fuel + (64 + length l)) answers st h size l)
    as (p0 & st0 & Hrun0 & Hout); auto; [lia|].
  rewrite (Arena_alloc_units_fuel _ _ _ _ _ _ _ _ Hrun) in Hrun0 by lia.
  now injection Hrun0 as <- <-.
Qed.

(** ** What [Arena_reset] and [Arena_free] do to a chain *)

Lemma Arena_reset_spec fuel st h l :
  chain (nodes st) h l -> (length l < fuel)%nat ->
  exists st', Arena_reset fuel st h = Ret st' /\ blocks st' = blocks st /\
    nodes_mapped zeroed l st st'.
Proof.
  revert st h fuel. induction l as [|a0 l IH]; intros st h fuel Hc Hfuel;
    (destruct fuel as [|fuel]; [simpl in Hfuel; lia|]); cbn [Arena_reset].
  - inversion Hc; subst. change (NULL =? NULL) with true. cbv iota.
    exists st. repeat split; auto. intros a n Hin. now apply elem_of_nil in Hin.
  - inversion Hc as [|a n l' Ha Hn Hc']; subst. simpl in Hfuel.
    destruct (Z.eqb_spec a0 NULL) as [|_]; [contradiction|].
    rewrite (load_lookup st a0 n Ha Hn). cbn [mbind res_bind].
    assert (Hfr : a0 ∉ l) by (eapply chain_head_fresh; eassumption).
    set (st1 := store st a0 (mkArena (_region n) 0 (_alloc_size n) (_next n))).
    assert (Hc1 : chain (nodes st1) (_next n) l).
    { apply chain_frame with (m := nodes st); [assumption|].
      intros b nb Hbl Hnb. exists nb. split; [|reflexivity].
      unfold st1, store. cbn [nodes].
      rewrite lookup_insert_ne; [assumption|]. intros ->. contradiction. }
    destruct (IH st1 (_next n) fuel Hc1) as (st' & Hrun & Hb & Hin & Hout); [lia|].
    exists st'. split; [exact Hrun|]. split; [exact Hb|]. split.
    + intros b nb Hbl Hnb. apply elem_of_cons in Hbl as [->|Hbl].
      * rewrite Hn in Hnb. injection Hnb as <-. rewrite (Hout a0 Hfr).
        unfold st1, store. cbn [nodes]. apply lookup_insert_eq.
      * apply Hin; [assumption|]. unfold st1, store. cbn [nodes].
        rewrite lookup_insert_ne; [assumption|]. intros ->. contradiction.
    + intros b Hbl. rewrite not_elem_of_cons in Hbl. destruct Hbl as [Hba Hbl].
      rewrite (Hout b Hbl). unfold st1, store. cbn [nodes]. now rewrite lookup_insert_ne.
Qed.

Lemma Arena_free_spec fuel st h l :
  chain (nodes st) h l -> (length l < fuel)%nat ->
  exists st', Arena_free fuel st h = Ret st' /\ nodes_mapped released l st st'.
Proof.
  revert st h fuel. induction l as [|a0 l IH]; intros st h fuel Hc Hfuel;
    (destruct fuel as [|fuel]; [simpl in Hfuel; lia|]); cbn [Arena_free].
  - inversion Hc; subst. change (NULL =? NULL) with true. cbv iota.
    exists st. repeat split; auto. intros a n Hin. now apply elem_of_nil in Hin.
  - inversion Hc as [|a n l' Ha Hn Hc']; subst. simpl in Hfuel.
    destruct (Z.eqb_spec a0 NULL) as [|_]; [contradiction|].
    rewrite (load_lookup st a0 n Ha Hn). cbn [mbind res_bind].
    rewrite load_store by assumption. cbn [mbind res_bind _region _size _alloc_size].
    assert (Hfr : a0 ∉ l) by (eapply chain_head_fresh; eassumption).
    match goal with |- context [Arena_free fuel ?s (_next n)] => set (st3 := s) end.
    assert (Hn3 : nodes st3 = <[a0 := released n]> (nodes st)).
    { unfold st3, store, free. cbn [nodes].
      destruct (_region n =? NULL); cbn [nodes]; now rewrite insert_insert_eq. }
    assert (Hc3 : chain (nodes st3) (_next n) l).
    { rewrite Hn3. apply chain_frame with (m := nodes st); [assumption|].
      intros b nb Hbl Hnb. exists nb. split; [|reflexivity].
      rewrite lookup_insert_ne; [assumption|]. intros ->. contradiction. }
    destruct (IH st3 (_next n) fuel Hc3) as (st' & Hrun & Hin & Hout); [lia|].
    exists st'. split; [exact Hrun|]. split.
    + intros b nb Hbl Hnb. apply elem_of_cons in Hbl as [->|Hbl].
      * rewrite Hn in Hnb. injection Hnb as <-. rewrite (Hout a0 Hfr), Hn3.
        apply lookup_insert_eq.
      * apply Hin; [assumption|]. rewrite Hn3.
        rewrite lookup_insert_ne; [assumption|]. intros ->. contradiction.
    + intros b Hbl. rewrite not_elem_of_cons in Hbl. destruct Hbl as [Hba Hbl].
      rewrite (Hout b Hbl), Hn3. now rewrite lookup_insert_ne.
Qed.

Lemma Arena_alloc_nonzero DEF fuel answers st h size :
  size <> 0 ->
  Arena_alloc DEF fuel answers st h size =
  Arena_alloc_units DEF fuel answers st h (units size).
Proof. intros H. unfold Arena_alloc. now destruct (Z.eqb_spec size 0). Qed.

Lemma has_room_ok size n :
  region_ok n -> 0 < size -> has_room size n = true ->
  _size n + size <= _alloc_size n /\ wrap (_size n + size) = _size n + size.
Proof.
  intros (Hs & Ha & _) Hsz Hroom. unfold has_room in Hroom.
  rewrite wrap_small in Hroom by lia. apply Z.leb_le in Hroom.
  split; [lia|]. rewrite wrap_small; lia.
Qed.

(** One allocation keeps the arena in shape and lowers no [_size]. *)
Lemma alloc_outcome_ok DEF answers st h size l p st' :
  0 < DEF -> arena_ok st h l -> fresh st answers -> 0 < size < UINTPTR_MAX1 ->
  alloc_outcome DEF answers st size l p st' ->
  (exists l', arena_ok st' h l' /\ forall a, a ∈ l -> a ∈ l') /\
  forall a n, a ∈ l -> nodes st !! a = Some n ->
    exists n', nodes st' !! a = Some n' /\ _size n <= _size n' <= _alloc_size n'.
Proof.
  intros HD (Hc & Hne & Hok) Hfresh Hsize Hout.
  assert (Hsame : (exists l', arena_ok st h l' /\ forall a, a ∈ l -> a ∈ l') /\
    forall a n, a ∈ l -> nodes st !! a = Some n ->
      exists n', nodes st !! a = Some n' /\ _size n <= _size n' <= _alloc_size n').
  { split; [exists l; split; [split; [|split]; assumption|auto]|].
    intros a n Ha Hn. exists n. split; [assumption|].
    destruct (Hok a n Ha Hn) as (? & _). lia. }
  destruct Hout as [a n Hfit Hn|c|c|c t n q rest|c t n q rest Hfit Hl Hc64 Hlast Hn Hr Ea Hq
                   |c t n q q' rest Hfit Hl Hc64 Hlast Hn Hr Ea Hq Hq']; try exact Hsame.
  - (* served by the first fit *)
    destruct (first_fit_Some _ _ _ _ Hfit) as (l1 & l2 & n0 & El & Hn0 & Hroom & _).
    rewrite Hn in Hn0. injection Hn0 as <-.
    assert (Ha : a ∈ l) by (rewrite El; apply elem_of_app; right; apply elem_of_cons; auto).
    pose proof (Hok a n Ha Hn) as Hokn.
    destruct (has_room_ok size n Hokn) as (Hle & Hw); [lia|assumption|].
    destruct Hokn as (Hs & Hcap & Hbuf).
    assert (Hlk : forall b, b <> a -> nodes (store st a
              (mkArena (_region n) (wrap (_size n + size)) (_alloc_size n) (_next n))) !! b
              = nodes st !! b).
    { intros b Hb. unfold store. cbn [nodes]. now rewrite lookup_insert_ne. }
    split.
    + exists l. split; [|auto]. split; [|split; [assumption|]].
      * apply chain_frame with (m := nodes st); [assumption|].
        intros b nb Hb Hnb. destruct (Z.eq_dec b a) as [->|Hba].
        -- rewrite Hn in Hnb. injection Hnb as <-. eexists.
           split; [unfold store; cbn [nodes]; apply lookup_insert_eq|reflexivity].
        -- exists nb. rewrite Hlk by assumption. auto.
      * intros b nb Hb Hnb. destruct (Z.eq_dec b a) as [->|Hba].
        -- unfold store in Hnb. cbn [nodes] in Hnb. rewrite lookup_insert_eq in Hnb.
           injection Hnb as <-. unfold region_ok. cbn. rewrite Hw. repeat split; try lia;
             apply Hbuf.
        -- rewrite Hlk in Hnb by assumption. eauto.
    + intros b nb Hb Hnb. destruct (Z.eq_dec b a) as [->|Hba].
      * rewrite Hn in Hnb. injection Hnb as <-. eexists. split.
        -- unfold store. cbn [nodes]. apply lookup_insert_eq.
        -- cbn. lia.
      * exists nb. rewrite Hlk by assumption. split; [assumption|].
        destruct (Hok b nb Hb Hnb) as (? & _). lia.
  - (* a new buffer for the blank tail *)
    assert (Ht : t ∈ l).
    { apply list_elem_of_lookup. rewrite last_lookup in Hlast. eauto. }
    destruct (Hok t n Ht Hn) as (Hs & Hcap & Hbuf).
    assert (Hz : _size n = 0) by (apply Hbuf in Hr; lia).
    destruct Hl as (_ & Hsc & _).
    assert (Hw : wrap (_size n + size) = size) by (rewrite Hz, wrap_small; lia).
    cbn [nodes]. split.
    + exists l. split; [|auto]. split; [|split; [assumption|]].
      * apply chain_frame with (m := nodes st); [assumption|].
        intros b nb Hb Hnb. destruct (Z.eq_dec b t) as [->|Hbt].
        -- rewrite Hn in Hnb. injection Hnb as <-. eexists.
           split; [cbn [nodes]; apply lookup_insert_eq|reflexivity].
        -- exists nb. cbn [nodes]. rewrite lookup_insert_ne by congruence. auto.
      * intros b nb Hb Hnb. cbn [nodes] in Hnb. destruct (Z.eq_dec b t) as [->|Hbt].
        -- rewrite lookup_insert_eq in Hnb. injection Hnb as <-.
           unfold region_ok. cbn. rewrite Hw. repeat split; try lia.
        -- rewrite lookup_insert_ne in Hnb by congruence. eauto.
    + intros b nb Hb Hnb. destruct (Z.eq_dec b t) as [->|Hbt].
      * rewrite Hn in Hnb. injection Hnb as <-. eexists. split.
        -- apply lookup_insert_eq.
        -- cbn. rewrite Hw. lia.
      * exists nb. rewrite lookup_insert_ne by congruence. split; [assumption|].
        destruct (Hok b nb Hb Hnb) as (? & _). lia.
  - (* a new node after the tail *)
    assert (Ht : t ∈ l).
    { apply list_elem_of_lookup. rewrite last_lookup in Hlast. eauto. }
    assert (Hfq : nodes st !! q' = None).
    { apply Hfresh; [rewrite Ea; apply elem_of_cons; right; apply elem_of_cons; auto|auto]. }
    assert (Hql : q' ∉ l).
    { intros Hin. destruct (chain_lookup _ _ _ _ Hc Hin) as [x Hx]. congruence. }
    destruct Hl as (_ & Hsc & _).
    cbn [nodes]. split.
    + exists (l ++ [q']). split; [|intros b Hb; apply elem_of_app; auto]. split; [|split].
      * apply chain_snoc; auto.
      * intros E. apply (f_equal (@length Z)) in E. rewrite length_app in E. simpl in E. lia.
      * intros b nb Hb Hnb. cbn [nodes] in Hnb.
        destruct (Z.eq_dec b q') as [->|Hbq].
        { rewrite lookup_insert_eq in Hnb. injection Hnb as <-.
          unfold region_ok. cbn. repeat split; try lia. }
        rewrite lookup_insert_ne in Hnb by congruence.
        apply elem_of_app in Hb as [Hb|Hb];
          [|apply list_elem_of_singleton in Hb; contradiction].
        destruct (Z.eq_dec b t) as [->|Hbt].
        { rewrite lookup_insert_eq in Hnb. injection Hnb as <-.
          destruct (Hok t n Ht Hn) as (? & ? & ?). unfold region_ok. cbn. auto. }
        rewrite lookup_insert_ne in Hnb by congruence. eauto.
    + intros b nb Hb Hnb.
      assert (b <> q') by (intros ->; contradiction).
      rewrite lookup_insert_ne by congruence.
      destruct (Z.eq_dec b t) as [->|Hbt].
      * rewrite Hn in Hnb. injection Hnb as <-. rewrite lookup_insert_eq.
        eexists. split; [reflexivity|]. cbn. destruct (Hok t n Ht Hn) as (? & _). lia.
      * rewrite lookup_insert_ne by congruence. exists nb. split; [assumption|].
        destruct (Hok b nb Hb Hnb) as (? & _). lia.
Qed.

Lemma Arena_alloc_ok DEF fuel answers st h size l p st' :
  0 < DEF < UINTPTR_MAX1 -> arena_ok st h l -> fresh st answers ->
  0 <= size < UINTPTR_MAX1 ->
  Arena_alloc DEF fuel answers st h size = Ret (p, st') ->
  (exists l', arena_ok st' h l' /\ forall a, a ∈ l -> a ∈ l') /\
  forall a n, a ∈ l -> nodes st !! a = Some n ->
    exists n', nodes st' !! a = Some n' /\ _size n <= _size n' <= _alloc_size n'.
Proof.
  intros HD Hok Hfresh Hsize Hrun.
  destruct (Z.eq_dec size 0) as [->|Hnz].
  - injection Hrun as <- <-. split; [exists l; auto|].
    intros a n Ha Hn. exists n. split; [assumption|].
    destruct Hok as (_ & _ & Hok). destruct (Hok a n Ha Hn) as (? & _). lia.
  - rewrite Arena_alloc_nonzero in Hrun by assumption.
    destruct (units_bounds size Hsize) as (_ & Hu).
    assert (Hu' : 0 < units size < UINTPTR_MAX1) by (unfold UINTPTR_MAX1; lia).
    pose proof Hok as (Hc & Hne & _).
    pose proof (Arena_alloc_units_inv _ _ _ _ _ _ _ _ _ HD Hc Hne Hfresh Hu' Hrun) as Hout.
    apply (alloc_outcome_ok DEF answers st h (units size) l p st'); auto. lia.
Qed.

Lemma Arena_init_ok st0 h st :
  Arena_init st0 h = Ret st -> arena_ok st h [h].
Proof.
  unfold Arena_init. destruct (Z.eqb_spec h NULL) as [|Hh]; [discriminate|].
  intros [= <-]. unfold store. split; [|split; [discriminate|]]; cbn [nodes].
  - econstructor; [assumption|apply lookup_insert_eq|constructor].
  - intros a n Ha Hn. apply list_elem_of_singleton in Ha as ->.
    rewrite lookup_insert_eq in Hn. injection Hn as <-.
    unfold region_ok, UINTPTR_MAX1. cbn. repeat split; lia.
Qed.

Lemma Arena_reset_ok fuel st h l st' :
  arena_ok st h l -> Arena_reset fuel st h = Ret st' -> arena_ok st' h l.
Proof.
  intros (Hc & Hne & Hok) Hrun.
  destruct (Arena_reset_spec (fuel + S (length l)) st h l Hc) as (st1 & Hrun1 & _ & Hin & _);
    [lia|].
  rewrite (Arena_reset_fuel _ _ _ _ _ Hrun) in Hrun1 by lia. injection Hrun1 as <-.
  split; [|split; [assumption|]].
  - apply chain_frame with (m := nodes st); [assumption|].
    intros b nb Hb Hnb. exists (zeroed nb). split; [now apply Hin|reflexivity].
  - intros a n' Ha Hn'. destruct (chain_lookup _ _ _ _ Hc Ha) as [n Hn].
    rewrite (Hin a n Ha Hn) in Hn'. injection Hn' as <-.
    destruct (Hok a n Ha Hn) as (? & ? & ?). unfold region_ok. cbn. repeat split; auto; lia.
Qed.

Lemma reachable_ok DEF h st :
  0 < DEF < UINTPTR_MAX1 -> reachable DEF h st -> exists l, arena_ok st h l.
Proof.
  intros HD. induction 1 as [st0 st Hinit|st fuel answers size p st' _ [l IH] Hfresh Hsize Hrun
                            |st fuel st' _ [l IH] Hrun].
  - exists [h]. eapply Arena_init_ok; eassumption.
  - destruct (Arena_alloc_ok _ _ _ _ _ _ _ _ _ HD IH Hfresh Hsize Hrun) as ((l' & Hl' & _) & _).
    now exists l'.
  - exists l. eapply Arena_reset_ok; eassumption.
Qed.

(** Between [Arena_init] and [Arena_free], a region has a buffer exactly when
    it has capacity. *)
Lemma reachable_buffer_iff_capacity DEF h st l a n :
  0 < DEF < UINTPTR_MAX1 -> reachable DEF h st ->
  chain (nodes st) h l -> a ∈ l -> nodes st !! a = Some n ->
  (_region n <> NULL <-> 0 < _alloc_size n).
Proof.
  intros HD Hreach Hc Ha Hn.
  destruct (reachable_ok DEF h st HD Hreach) as (l0 & Hc0 & _ & Hok).
  rewrite (chain_functional _ _ _ _ Hc Hc0) in Ha.
  destruct (Hok a n Ha Hn) as (? & ? & Hbuf). split; intros; [|intros E; apply Hbuf in E; lia].
  destruct (Z.eq_dec (_alloc_size n) 0) as [E|]; [apply Hbuf in E; contradiction|lia].
Qed.

(** ** More on chains, the fast path and repeated resets *)

Lemma chain_insert_same_next m h l t n n' :
  chain m h l -> m !! t = Some n -> _next n' = _next n -> chain (<[t := n']> m) h l.
Proof.
  intros Hc Hn Hnx. apply chain_frame with (m := m); [assumption|].
  intros b nb _ Hnb. destruct (Z.eq_dec b t) as [->|Hbt].
  - rewrite Hn in Hnb. injection Hnb as <-. exists n'. split; [apply lookup_insert_eq|auto].
  - exists nb. rewrite lookup_insert_ne by congruence. auto.
Qed.

Lemma Arena_alloc_units_fast DEF fuel answers st h size l a n :
  chain (nodes st) h l -> (length l <= fuel)%nat ->
  first_fit (nodes st) size l = Some a -> nodes st !! a = Some n ->
  Arena_alloc_units DEF fuel answers st h size =
    Ret (ptr_add (_region n) (_size n),
         store st a (mkArena (_region n) (wrap (_size n + size)) (_alloc_size n) (_next n))).
Proof.
  intros Hc Hfuel Hfit Hn.
  destruct (first_fit_Some _ _ _ _ Hfit) as (l1 & l2 & n0 & El & Hn0 & Hroom & _).
  rewrite Hn in Hn0. injection Hn0 as <-.
  assert (Ha : a ∈ l) by (rewrite El; apply elem_of_app; right; apply elem_of_cons; auto).
  assert (Hne : l <> []) by (intros ->; now apply elem_of_nil in Ha).
  unfold Arena_alloc_units. rewrite (walk_spec fuel st h size l Hc Hne Hfuel).
  unfold walk_stop. rewrite Hfit. cbn [mbind res_bind].
  rewrite (load_lookup st a n (chain_nonnull _ _ _ _ Hc Ha) Hn). cbn [mbind res_bind].
  now rewrite Hroom.
Qed.

Lemma least_doubling_base def size : 0 < def -> size <= def -> least_doubling def size def.
Proof.
  intros Hd Hs. split; [exists 0; split; [lia|rewrite Z.pow_0_r; lia]|]. split; [assumption|].
  intros c' (k & Hk & ->) _.
  assert (1 <= 2 ^ k) by (apply (Z.pow_le_mono_r 2 0 k); lia). nia.
Qed.

Lemma find_ext_in {A} (f g : A -> bool) (l : list A) :
  (forall x, x ∈ l -> f x = g x) -> find f l = find g l.
Proof.
  induction l as [|x l IH]; intros H; [reflexivity|]. cbn [find].
  rewrite <- (H x) by (apply elem_of_cons; auto).
  destruct (f x); [reflexivity|]. apply IH. intros y Hy. apply H. apply elem_of_cons; auto.
Qed.

Lemma Arena_reset_times_spec fuel k st h l :
  chain (nodes st) h l -> (length l < fuel)%nat ->
  exists st', Arena_reset_times fuel k st h = Ret st' /\ blocks st' = blocks st /\
    chain (nodes st') h l /\ (k = O -> st' = st) /\
    ((0 < k)%nat -> nodes_mapped zeroed l st st').
Proof.
  intros Hc Hfuel. revert st Hc. induction k as [|k IH]; intros st Hc.
  - exists st. cbn. repeat split; auto; lia.
  - cbn [Arena_reset_times].
    destruct (Arena_reset_spec fuel st h l Hc Hfuel) as (st1 & Hrun & Hb & Hin & Hout).
    rewrite Hrun. cbn [mbind res_bind].
    assert (Hc1 : chain (nodes st1) h l).
    { apply chain_frame with (m := nodes st); [assumption|].
      intros b nb Hbl Hnb. exists (zeroed nb). split; [now apply Hin|reflexivity]. }
    destruct (IH st1 Hc1) as (st' & Hrun' & Hb' & Hc' & Hz & Hpos).
    exists st'. split; [assumption|]. split; [congruence|]. split; [assumption|].
    split; [discriminate|]. intros _.
    destruct k as [|k]; [rewrite (Hz eq_refl); split; assumption|].
    destruct Hpos as (Hin' & Hout'); [lia|]. split.
    + intros a n Ha Hn. apply (Hin' a (zeroed n) Ha). now apply Hin.
    + intros a Ha. rewrite (Hout' a Ha). now apply Hout.
Qed.

(** ** Closing goals on the example heaps *)

Ltac solve_fresh :=
  let q := fresh "q" in
  let Hq := fresh "Hq" in
  intros q Hq _;
  repeat (apply elem_of_cons in Hq as [->|Hq]; [split; vm_compute; reflexivity|]);
  now apply elem_of_nil in Hq.

Ltac solve_chain :=
  repeat (econstructor; [discriminate|vm_compute; reflexivity|]); constructor.

Ltac tail_facts Hlast Hn :=
  repeat match goal with
  | H : last _ = Some _ |- _ => rewrite Hlast in H; injection H as <-
  | H : nodes _ !! _ = Some _ |- _ => rewrite Hn in H; injection H as <-
  | H : _ :: _ = _ :: _ |- _ => injection H as ? ?; subst
  end.

(** * The properties *)

(** ** Release *)

(** C1, on the code: after [Arena_init; Arena_alloc(14); Arena_free] (the run
    of examples/arena.c, first allocation only) the head region has no buffer
    and no next region, but [Arena_free] leaves [_size = 4] and
    [_alloc_size = 16] as they were before the release; after [Arena_init]
    both are 0. The head is not put back into its initial state. *)
Theorem Arena_free_keeps_counters :
  Arena_init empty_heap ex_head = Ret ex_blank /\
  Arena_alloc 16 100 [5000] ex_blank ex_head 14 = Ret (5000, ex_one) /\
  Arena_free 100 ex_one ex_head = Ret ex_released /\
  nodes ex_blank !! ex_head = Some (mkArena NULL 0 0 NULL) /\
  nodes ex_one !! ex_head = Some (mkArena 5000 4 16 NULL) /\
  nodes ex_released !! ex_head = Some (mkArena NULL 4 16 NULL).
Proof. repeat split; vm_compute; reflexivity. Qed.

(** C2, on the code: the state reached by [Arena_init; Arena_alloc(14);
    Arena_free] has a head region without a buffer whose capacity is 16, so
    "buffer present iff capacity > 0" does not survive [Arena_free]. *)
Theorem Arena_free_leaves_capacity_without_buffer :
  exists st1 st2 st3 p n,
    Arena_init empty_heap ex_head = Ret st1 /\
    Arena_alloc 16 100 [5000] st1 ex_head 14 = Ret (p, st2) /\
    Arena_free 100 st2 ex_head = Ret st3 /\
    chain (nodes st3) ex_head [ex_head] /\
    nodes st3 !! ex_head = Some n /\ _region n = NULL /\ 0 < _alloc_size n.
Proof.
  exists ex_blank, ex_one, ex_released, 5000, (mkArena NULL 4 16 NULL).
  repeat split; try (vm_compute; reflexivity).
  econstructor; [discriminate|vm_compute; reflexivity|constructor].
Qed.

(** C10: in the call sequence [Arena_init; Arena_alloc(14); Arena_free;
    Arena_alloc(14)] the release keeps the head's [_size = 4] and
    [_alloc_size = 16], so the second allocation finds room (4 <= 16 - 4) in
    the head, whose buffer is absent, and is served by the fast path: it
    returns the non-null pointer [NULL + 4] (address 32), asks the backing
    allocator for nothing (it is given no answer to use, and the live blocks
    stay the same), and leaves the head without a buffer. *)
Theorem alloc_after_free_uses_absent_buffer :
  exists st1 p st2 n2 st3 n q st4 n',
    Arena_init empty_heap ex_head = Ret st1 /\
    Arena_alloc 16 100 [5000] st1 ex_head 14 = Ret (p, st2) /\ p <> NULL /\
    nodes st2 !! ex_head = Some n2 /\
    Arena_free 100 st2 ex_head = Ret st3 /\
    nodes st3 !! ex_head = Some n /\ _region n = NULL /\
    _size n = _size n2 /\ _alloc_size n = _alloc_size n2 /\
    has_room (units 14) n = true /\
    first_fit (nodes st3) (units 14) [ex_head] = Some ex_head /\
    Arena_alloc 16 100 [] st3 ex_head 14 = Ret (q, st4) /\
    q = ptr_add NULL (_size n) /\ q <> NULL /\
    blocks st4 = blocks st3 /\
    nodes st4 !! ex_head = Some n' /\ _region n' = NULL /\
    _size n' = _size n + units 14.
Proof.
  exists ex_blank, 5000, ex_one, (mkArena 5000 4 16 NULL).
  exists ex_released, (mkArena NULL 4 16 NULL), 32.
  exists (mkHeap {[ ex_head := mkArena NULL 8 16 NULL ]} ∅), (mkArena NULL 8 16 NULL).
  repeat split; try (vm_compute; reflexivity); discriminate.
Qed.

(** What the stale counters lead to: with the head filled to its capacity
    ([Arena_alloc(60)], 16 units), released, and asked for 16 units again, the
    head has no room, is taken for blank, and gets a new buffer of capacity
    16 while its [_size] goes from the stale 16 to 32. *)
Example stale_size_after_free :
  exists st1 st2,
    Arena_alloc 16 100 [5000] ex_blank ex_head 60 = Ret (5000, ex_full) /\
    Arena_free 100 ex_full ex_head = Ret st1 /\
    Arena_alloc 16 100 [6000] st1 ex_head 60 = Ret (6000, st2) /\
    nodes st2 !! ex_head = Some (mkArena 6000 32 16 NULL).
Proof.
  eexists (mkHeap {[ ex_head := mkArena NULL 16 16 NULL ]} ∅).
  eexists (mkHeap {[ ex_head := mkArena 6000 32 16 NULL ]} {[ 6000 := 16 ]}).
  repeat split; vm_compute; reflexivity.
Qed.

(** ** Requests of size zero *)

(** C6: [Arena_alloc] with a size of zero bytes returns [NULL] and the heap
    it was given, whatever the arena, the fuel and the backing allocator. *)
Theorem Arena_alloc_zero DEF fuel answers st h :
  Arena_alloc DEF fuel answers st h 0 = Ret (NULL, st).
Proof. reflexivity. Qed.

(** ** Usage of a region *)

(** C9, on the code: in the run [Arena_init; Arena_alloc(60); Arena_free;
    Arena_alloc(60); Arena_alloc(14)] with [COOL_ARENA_DEF_SIZE = 16] the three
    allocations succeed and are served by the head region. The release keeps
    the head's [_size = 16] and [_alloc_size = 16]; the second allocation
    finds no room, takes the head for blank and gives it a buffer of capacity
    16 while adding 16 to the stale [_size]: used is 32 with capacity 16.
    The room check of the third allocation computes [16 - 32] modulo [2^64],
    passes, and the head serves it at offset 32, past its capacity; used
    becomes 36. The counter does not go down, but it exceeds the capacity. *)
Theorem used_exceeds_capacity_after_free :
  exists st1 st2 st3 p st4 n4 q st5 n5,
    Arena_init empty_heap ex_head = Ret st1 /\
    Arena_alloc 16 100 [5000] st1 ex_head 60 = Ret (5000, st2) /\
    nodes st2 !! ex_head = Some (mkArena 5000 16 16 NULL) /\
    Arena_free 100 st2 ex_head = Ret st3 /\
    nodes st3 !! ex_head = Some (mkArena NULL 16 16 NULL) /\
    Arena_alloc 16 100 [6000] st3 ex_head 60 = Ret (p, st4) /\ p <> NULL /\
    nodes st4 !! ex_head = Some n4 /\ _region n4 = p /\
    _size n4 = 32 /\ _alloc_size n4 = 16 /\
    has_room (units 14) n4 = true /\
    Arena_alloc 16 100 [] st4 ex_head 14 = Ret (q, st5) /\ q <> NULL /\
    q = ptr_add p (_size n4) /\
    nodes st5 !! ex_head = Some n5 /\ _region n5 = p /\
    _size n5 = 36 /\ _alloc_size n5 = 16 /\
    _size n4 <= _size n5 /\ _alloc_size n5 < _size n5.
Proof.
  exists ex_blank, ex_full, (mkHeap {[ ex_head := mkArena NULL 16 16 NULL ]} ∅).
  exists 6000, (mkHeap {[ ex_head := mkArena 6000 32 16 NULL ]} {[ 6000 := 16 ]}),
    (mkArena 6000 32 16 NULL).
  exists 6256, (mkHeap {[ ex_head := mkArena 6000 36 16 NULL ]} {[ 6000 := 16 ]}),
    (mkArena 6000 36 16 NULL).
  repeat split; try (vm_compute; reflexivity); try discriminate.
Qed.

(** X20: in an arena whose regions satisfy the invariants of the data model
    ([_size <= _alloc_size], buffer present iff capacity non-zero), across
    any run of successful allocations every region of the chain is still
    there, its [_size] has not gone down, and its [_size] is at most its
    [_alloc_size]; the regions of the resulting chain satisfy the invariants
    again. *)
Theorem used_monotone_bounded DEF h st st' l a n :
  0 < DEF < UINTPTR_MAX1 ->
  arena_ok st h l -> allocations DEF h st st' ->
  a ∈ l -> nodes st !! a = Some n ->
  exists l' n', arena_ok st' h l' /\ a ∈ l' /\ nodes st' !! a = Some n' /\
    _size n <= _size n' <= _alloc_size n'.
Proof.
  intros HD Hok Hallocs. revert l a n Hok.
  induction Hallocs as [st|st fuel answers size p st1 st2 Hfresh Hsize Hrun Hp _ IH];
    intros l a n Hok Ha Hn.
  - exists l, n. pose proof Hok as (_ & _ & Hr). destruct (Hr a n Ha Hn) as (Hs & _).
    split; [assumption|]. split; [assumption|]. split; [assumption|]. lia.
  - assert (Hsize' : 0 <= size < UINTPTR_MAX1) by lia.
    destruct (Arena_alloc_ok _ _ _ _ _ _ _ _ _ HD Hok Hfresh Hsize' Hrun)
      as ((l1 & Hok1 & Hsub) & Hmono).
    destruct (Hmono a n Ha Hn) as (n1 & Hn1 & Hle1).
    destruct (IH l1 a n1 Hok1 (Hsub a Ha) Hn1) as (l' & n' & Hok' & Ha' & Hn' & Hle').
    exists l', n'. split; [assumption|]. split; [assumption|]. split; [assumption|]. lia.
Qed.

Lemma used_monotone_bounded_witness :
  exists l' n', arena_ok ex_one ex_head l' /\ ex_head ∈ l' /\
    nodes ex_one !! ex_head = Some n' /\
    _size (mkArena NULL 0 0 NULL) <= _size n' <= _alloc_size n'.
Proof.
  apply (used_monotone_bounded 16 ex_head ex_blank ex_one [ex_head] ex_head).
  - unfold UINTPTR_MAX1. lia.
  - apply (Arena_init_ok empty_heap). reflexivity.
  - apply (allocations_cons 16 ex_head ex_blank 100%nat [5000] 14 5000 ex_one ex_one).
    + solve_fresh.
    + unfold UINTPTR_MAX1. lia.
    + vm_compute. reflexivity.
    + discriminate.
    + apply allocations_nil.
  - apply elem_of_cons. now left.
  - vm_compute. reflexivity.
Defined.

(** ** First fit *)

(** The cases of a call on any chain, the room of a region being what the
    code computes ([has_room]): served by the first region with room, out of
    its buffer at offset [_size]; or, no region having room, the walk ends
    at the tail, and the backing allocator providing, a tail with a buffer
    gets a new region linked after it and a tail without one receives the
    new buffer itself. *)
Lemma alloc_first_fit_cases DEF fuel answers st h size l :
  0 < DEF < UINTPTR_MAX1 ->
  chain (nodes st) h l -> l <> [] -> fresh st answers ->
  0 < size < UINTPTR_MAX1 -> (64 + length l <= fuel)%nat ->
  match first_fit (nodes st) (units size) l with
  | Some a =>
      exists n, nodes st !! a = Some n /\
        Arena_alloc DEF fuel answers st h size =
          Ret (ptr_add (_region n) (_size n),
               store st a (mkArena (_region n) (wrap (_size n + units size))
                                   (_alloc_size n) (_next n)))
  | None =>
      exists t n, last l = Some t /\ nodes st !! t = Some n /\
        Arena_alloc_walk fuel st h (units size) = Ret t /\
        (_region n <> NULL ->
         forall p q rest, answers = p :: q :: rest -> p <> NULL -> q <> NULL ->
           exists st' nq, Arena_alloc DEF fuel answers st h size = Ret (p, st') /\
             chain (nodes st') h (l ++ [q]) /\
             nodes st' !! q = Some nq /\ _region nq = p /\ _size nq = units size) /\
        (_region n = NULL ->
         forall p rest, answers = p :: rest -> p <> NULL ->
           exists st' n', Arena_alloc DEF fuel answers st h size = Ret (p, st') /\
             chain (nodes st') h l /\
             nodes st' !! t = Some n' /\ _region n' = p /\
             _size n' = wrap (_size n + units size))
  end.
Proof.
  intros HD Hc Hne Hfresh Hsize Hfuel.
  assert (Hsz : 0 <= size < UINTPTR_MAX1) by lia.
  destruct (units_bounds size Hsz) as (_ & Hu).
  assert (Hu' : 0 < units size < UINTPTR_MAX1) by (unfold UINTPTR_MAX1; lia).
  rewrite Arena_alloc_nonzero by lia.
  destruct (Arena_alloc_units_outcome DEF HD fuel answers st h (units size) l)
    as (p0 & st0 & Hrun & Hout); auto.
  pose proof (walk_spec fuel st h (units size) l Hc Hne) as Hwalk.
  unfold walk_stop in Hwalk.
  destruct (capacity_units DEF fuel size HD Hsz) as (c0 & Hl0 & Hc0 & _); [lia|].
  destruct (first_fit (nodes st) (units size) l) as [a|] eqn:Hfit.
  - inversion Hout; subst; try congruence.
    match goal with
    | H : first_fit _ _ _ = Some ?x, H' : nodes st !! ?x = Some _ |- _ =>
        assert (E : x = a) by congruence; subst x
    end.
    eexists. split; [eassumption|]. exact Hrun.
  - pose proof (last_default_Some l Hne) as Hlast.
    assert (Ht : List.last l NULL ∈ l).
    { apply list_elem_of_lookup. rewrite last_lookup in Hlast. eauto. }
    destruct (chain_lookup _ _ _ _ Hc Ht) as [n Hn].
    exists (List.last l NULL), n. split; [assumption|]. split; [assumption|].
    split; [apply Hwalk; lia|]. split.
    + intros Hr p q rest Ea Hp Hq.
      inversion Hout; subst; try congruence;
        repeat match goal with
        | H : last l = Some _ |- _ => rewrite Hlast in H; injection H as <-
        | H : nodes _ !! List.last l NULL = Some _ |- _ =>
            rewrite Hn in H; injection H as <-
        | H : _ :: _ = _ :: _ |- _ => injection H as ? ?; subst
        | H : least_doubling DEF _ ?c, H' : UINTPTR_MAX1 <= ?c |- _ =>
            pose proof (least_doubling_unique _ _ _ _ H Hl0); lia
        end; try contradiction; cbn [hd] in *; try congruence.
      eexists _, _. split; [exact Hrun|]. cbn [nodes]. split; [|split].
      * apply chain_snoc; auto.
        apply Hfresh; [apply elem_of_cons; right; apply elem_of_cons; auto|auto].
      * apply lookup_insert_eq.
      * auto.
    + intros Hr p rest Ea Hp.
      inversion Hout; subst; try congruence;
        repeat match goal with
        | H : last l = Some _ |- _ => rewrite Hlast in H; injection H as <-
        | H : nodes _ !! List.last l NULL = Some _ |- _ =>
            rewrite Hn in H; injection H as <-
        | H : _ :: _ = _ :: _ |- _ => injection H as ? ?; subst
        | H : least_doubling DEF _ ?c, H' : UINTPTR_MAX1 <= ?c |- _ =>
            pose proof (least_doubling_unique _ _ _ _ H Hl0); lia
        end; try contradiction; cbn [hd] in *; try congruence.
      eexists _, _. split; [exact Hrun|]. cbn [nodes]. split; [|split].
      * apply chain_frame with (m := nodes st); [assumption|].
        intros b nb Hb Hnb. destruct (Z.eq_dec b (List.last l NULL)) as [->|Hbt].
        -- rewrite Hn in Hnb. injection Hnb as <-. eexists.
           split; [apply lookup_insert_eq|reflexivity].
        -- exists nb. rewrite lookup_insert_ne by congruence. auto.
      * apply lookup_insert_eq.
      * auto.
Qed.

Lemma first_with_room_is_first_fit st h size l :
  arena_ok st h l -> first_with_room (nodes st) size l = first_fit (nodes st) size l.
Proof.
  intros (Hc & _ & Hreg). unfold first_with_room, first_fit. apply find_ext_in.
  intros a Ha. unfold room_at. destruct (nodes st !! a) as [n|] eqn:Hn; [|reflexivity].
  destruct (Hreg a n Ha Hn) as (Hs & Hcap & _).
  unfold has_room, free_space. rewrite wrap_small; [reflexivity|lia].
Qed.

(** C3, as the code has it by design: in an arena whose regions satisfy the
    invariants of the data model ([_size <= _alloc_size], buffer present iff
    capacity non-zero), a non-zero request of [units size] units is served
    from the first region in chain order whose free space, capacity minus
    used, is at least that count: out of that region's buffer at offset
    [_size], only that region's [_size] changing. If no region qualifies, the
    walk ends at the tail; then, the backing allocator providing, a tail
    that has a buffer gets a new region linked after it, and a tail without
    a buffer (the head of an arena that has not allocated yet) receives the
    new buffer itself, the chain staying as it is. *)
Theorem first_fit_or_grow DEF fuel answers st h size l :
  0 < DEF < UINTPTR_MAX1 ->
  arena_ok st h l -> fresh st answers ->
  0 < size < UINTPTR_MAX1 -> (64 + length l <= fuel)%nat ->
  match first_with_room (nodes st) (units size) l with
  | Some a =>
      exists n, nodes st !! a = Some n /\ units size <= free_space n /\
        Arena_alloc DEF fuel answers st h size =
          Ret (ptr_add (_region n) (_size n),
               store st a (mkArena (_region n) (_size n + units size)
                                   (_alloc_size n) (_next n)))
  | None =>
      exists t n, last l = Some t /\ nodes st !! t = Some n /\
        Arena_alloc_walk fuel st h (units size) = Ret t /\
        (_region n <> NULL ->
         forall p q rest, answers = p :: q :: rest -> p <> NULL -> q <> NULL ->
           exists st' nq, Arena_alloc DEF fuel answers st h size = Ret (p, st') /\
             chain (nodes st') h (l ++ [q]) /\
             nodes st' !! q = Some nq /\ _region nq = p /\ _size nq = units size) /\
        (_region n = NULL ->
         forall p rest, answers = p :: rest -> p <> NULL ->
           exists st' n', Arena_alloc DEF fuel answers st h size = Ret (p, st') /\
             chain (nodes st') h l /\
             nodes st' !! t = Some n' /\ _region n' = p /\
             _size n' = units size)
  end.
Proof.
  intros HD Hok Hfresh Hsize Hfuel.
  pose proof Hok as (Hc & Hne & Hreg).
  assert (Hsz : 0 <= size < UINTPTR_MAX1) by lia.
  destruct (units_bounds size Hsz) as (_ & Hu).
  pose proof (alloc_first_fit_cases DEF fuel answers st h size l HD Hc Hne Hfresh Hsize Hfuel)
    as Hcases.
  rewrite (first_with_room_is_first_fit st h (units size) l Hok).
  destruct (first_fit (nodes st) (units size) l) as [a|] eqn:Hfit.
  - destruct Hcases as (n & Hn & Hrun).
    destruct (first_fit_Some _ _ _ _ Hfit) as (l1 & l2 & n0 & El & Hn0 & Hroom & _).
    rewrite Hn in Hn0. injection Hn0 as <-.
    assert (Ha : a ∈ l) by (rewrite El; apply elem_of_app; right; apply elem_of_cons; auto).
    destruct (has_room_ok (units size) n (Hreg a n Ha Hn)) as (Hle & Hw); [lia|assumption|].
    exists n. split; [assumption|]. split; [unfold free_space; lia|].
    rewrite Hrun, Hw. reflexivity.
  - destruct Hcases as (t & n & Hlast & Hn & Hwalk & Happ & Hin).
    exists t, n. split; [assumption|]. split; [assumption|]. split; [assumption|].
    split; [exact Happ|].
    intros Hr p rest Ea Hp.
    destruct (Hin Hr p rest Ea Hp) as (st' & n' & Hrun & Hc' & Hn' & Hr' & Hs').
    exists st', n'. repeat split; auto.
    assert (Ht : t ∈ l).
    { apply list_elem_of_lookup. rewrite last_lookup in Hlast. eauto. }
    destruct (Hreg t n Ht Hn) as (Hs & Hcap & Hbuf).
    assert (_alloc_size n = 0) by (now apply Hbuf).
    rewrite Hs'. replace (_size n) with 0 by lia.
    apply wrap_small. unfold UINTPTR_MAX1. lia.
Qed.

Lemma first_fit_or_grow_witness :
  exists st', Arena_alloc 16 100 [6000; 7000] ex_full ex_head 4 = Ret (6000, st') /\
    chain (nodes st') ex_head ([ex_head] ++ [7000]).
Proof.
  assert (E' : nodes ex_full !! ex_head = Some (mkArena 5000 16 16 NULL))
    by (vm_compute; reflexivity).
  pose proof (first_fit_or_grow 16 100 [6000; 7000] ex_full ex_head 4 [ex_head]) as H.
  assert (E : first_with_room (nodes ex_full) (units 4) [ex_head] = None)
    by (vm_compute; reflexivity).
  rewrite E in H.
  destruct H as (t & n & Hl & Hn & _ & Happ & _).
  - unfold UINTPTR_MAX1. lia.
  - split; [solve_chain|]. split; [discriminate|].
    intros a n Ha Hn. apply list_elem_of_singleton in Ha as ->.
    rewrite E' in Hn. injection Hn as <-.
    unfold region_ok, UINTPTR_MAX1, NULL. cbn. repeat split; try lia; discriminate.
  - solve_fresh.
  - unfold UINTPTR_MAX1. lia.
  - simpl. lia.
  - injection Hl as <-.
    assert (En : n = mkArena 5000 16 16 NULL).
    { rewrite E' in Hn. now injection Hn as <-. }
    destruct (Happ ltac:(rewrite En; discriminate) 6000 7000 [] eq_refl)
      as (st' & nq & Hrun & Hc & _); [discriminate|discriminate|].
    exists st'. split; assumption.
Defined.

(** C3 as stated fails on a blank head: no region of the arena after
    [Arena_init] has room for 4 units, yet the allocation leaves the chain at
    its one node (the head takes the buffer) and links nothing after it. *)
Lemma blank_head_grows_in_place :
  first_fit (nodes ex_blank) (units 14) [ex_head] = None /\
  Arena_alloc 16 100 [5000; 7000] ex_blank ex_head 14 = Ret (5000, ex_one) /\
  chain (nodes ex_blank) ex_head [ex_head] /\
  chain (nodes ex_one) ex_head [ex_head] /\
  ~ exists q, chain (nodes ex_one) ex_head ([ex_head] ++ [q]).
Proof.
  split; [vm_compute; reflexivity|]. split; [vm_compute; reflexivity|].
  assert (Hc : chain (nodes ex_one) ex_head [ex_head]) by solve_chain.
  split; [solve_chain|]. split; [exact Hc|].
  intros [q Hq]. pose proof (chain_functional _ _ _ _ Hc Hq) as E. discriminate.
Qed.

(** ** Growth *)

(** C4: when no region has room for a request of [size] units, let [c] be
    the least value [DEF * 2^k] with [size <= c]. If [c] does not fit
    [uintptr_t], the call returns [NULL] and leaves the heap alone; if it
    does, then, the backing allocator providing, the call returns the new
    buffer and the tail of the chain holds it with [_alloc_size = c]. A call
    of [Arena_alloc] with a non-zero byte count [bytes] is this with
    [size = units bytes]. *)
Theorem growth_capacity_doubling DEF fuel answers st h size l :
  0 < DEF < UINTPTR_MAX1 ->
  chain (nodes st) h l -> l <> [] -> fresh st answers ->
  0 < size < UINTPTR_MAX1 -> (64 + length l <= fuel)%nat ->
  first_fit (nodes st) size l = None ->
  exists c, least_doubling DEF size c /\
    (UINTPTR_MAX1 <= c ->
       Arena_alloc_capacity fuel (wrap DEF) size = Ret None /\
       Arena_alloc_units DEF fuel answers st h size = Ret (NULL, st)) /\
    (c < UINTPTR_MAX1 ->
       Arena_alloc_capacity fuel (wrap DEF) size = Ret (Some c) /\
       forall p rest t nt, answers = p :: rest -> p <> NULL ->
         last l = Some t -> nodes st !! t = Some nt ->
         (_region nt <> NULL -> hd NULL rest <> NULL) ->
         exists st' l' a n,
           Arena_alloc_units DEF fuel answers st h size = Ret (p, st') /\
           chain (nodes st') h l' /\ last l' = Some a /\
           nodes st' !! a = Some n /\ _region n = p /\ _alloc_size n = c) /\
    (forall bytes, bytes <> 0 -> units bytes = size ->
       Arena_alloc DEF fuel answers st h bytes =
       Arena_alloc_units DEF fuel answers st h size).
Proof.
  intros HD Hc Hne Hfresh Hsize Hfuel Hfit.
  destruct (capacity_least DEF fuel size HD) as (c & Hleast & Hok & Hov); [lia|lia|].
  destruct (Arena_alloc_units_outcome DEF HD fuel answers st h size l)
    as (p0 & st0 & Hrun & Hout); auto.
  rewrite (wrap_small DEF) by lia.
  exists c. split; [assumption|]. split; [|split].
  - intros Hc64. split; [auto|].
    inversion Hout; subst; try congruence;
      match goal with
      | H : least_doubling DEF size ?c' |- _ =>
          pose proof (least_doubling_unique _ _ _ _ H Hleast); lia
      end.
  - intros Hc64. split; [auto|]. intros p rest t nt Ea Hp Hlast Hnt Hnode.
    inversion Hout; subst; try congruence;
      repeat match goal with
      | H : last l = Some _ |- _ => rewrite Hlast in H; injection H as <-
      | H : nodes _ !! t = Some _ |- _ => rewrite Hnt in H; injection H as <-
      | H : _ :: _ = _ :: _ |- _ => injection H as ? ?; subst
      | H : least_doubling DEF size ?c', H' : UINTPTR_MAX1 <= ?c' |- _ =>
          pose proof (least_doubling_unique _ _ _ _ H Hleast); lia
      | H : least_doubling DEF size ?c' |- _ =>
          apply (least_doubling_unique _ _ _ _ Hleast) in H; subst c'
      end; cbn [hd] in *; try congruence;
      try solve [exfalso; apply Hnode; assumption].
    + (* the blank tail takes the buffer *)
      eexists _, l, _, _. split; [exact Hrun|]. cbn [nodes].
      split; [eapply chain_insert_same_next; eauto|].
      split; [eassumption|]. split; [apply lookup_insert_eq|auto].
    + (* a new node after the tail *)
      eexists _, (l ++ [_]), _, _. split; [exact Hrun|]. cbn [nodes]. split.
      * apply chain_snoc; auto.
        apply Hfresh; [apply elem_of_cons; right; apply elem_of_cons; auto|auto].
      * split; [apply last_snoc|]. split; [apply lookup_insert_eq|auto].
  - intros bytes Hb <-. now apply Arena_alloc_nonzero.
Qed.

Lemma growth_capacity_doubling_witness :
  exists c, least_doubling 16 33 c /\
    (UINTPTR_MAX1 <= c ->
       Arena_alloc_capacity 100 (wrap 16) 33 = Ret None /\
       Arena_alloc_units 16 100 [6000; 7000] ex_one ex_head 33 = Ret (NULL, ex_one)) /\
    (c < UINTPTR_MAX1 ->
       Arena_alloc_capacity 100 (wrap 16) 33 = Ret (Some c) /\
       forall p rest t nt, [6000; 7000] = p :: rest -> p <> NULL ->
         last [ex_head] = Some t -> nodes ex_one !! t = Some nt ->
         (_region nt <> NULL -> hd NULL rest <> NULL) ->
         exists st' l' a n,
           Arena_alloc_units 16 100 [6000; 7000] ex_one ex_head 33 = Ret (p, st') /\
           chain (nodes st') ex_head l' /\ last l' = Some a /\
           nodes st' !! a = Some n /\ _region n = p /\ _alloc_size n = c) /\
    (forall bytes, bytes <> 0 -> units bytes = 33 ->
       Arena_alloc 16 100 [6000; 7000] ex_one ex_head bytes =
       Arena_alloc_units 16 100 [6000; 7000] ex_one ex_head 33).
Proof.
  apply (growth_capacity_doubling 16 100 [6000; 7000] ex_one ex_head 33 [ex_head]).
  - unfold UINTPTR_MAX1. lia.
  - solve_chain.
  - discriminate.
  - solve_fresh.
  - unfold UINTPTR_MAX1. lia.
  - simpl. lia.
  - vm_compute. reflexivity.
Defined.

(** The doubling loop on the run of examples/arena.c, and on a count that
    no [16 * 2^k] below [2^64] reaches. *)
Example capacity_of_33 : Arena_alloc_capacity 64 16 33 = Ret (Some 64).
Proof. vm_compute. reflexivity. Qed.

Example capacity_overflow : Arena_alloc_capacity 64 16 (2 ^ 63 + 1) = Ret None.
Proof. vm_compute. reflexivity. Qed.

Example units_overflow_refused :
  Arena_alloc_units 16 100 [6000; 7000] ex_full ex_head (2 ^ 63 + 1) = Ret (NULL, ex_full).
Proof. vm_compute. reflexivity. Qed.

(** ** Failure *)

(** C5: when no region has room and the call fails, because the least
    [DEF * 2^k] above the request does not fit [uintptr_t], or the backing
    allocator has no buffer to give, or (the tail having a buffer) it has no
    memory for the new chain node, the call returns [NULL] and the heap it
    was given: no [Arena] is changed or added, and the live blocks are the
    same. A call of [Arena_alloc] with a non-zero byte count [bytes] is this
    with [size = units bytes]. *)
Theorem alloc_failure_keeps_state DEF fuel answers st h size l t n c :
  0 < DEF < UINTPTR_MAX1 ->
  chain (nodes st) h l -> l <> [] -> fresh st answers ->
  0 < size < UINTPTR_MAX1 -> (64 + length l <= fuel)%nat ->
  first_fit (nodes st) size l = None ->
  last l = Some t -> nodes st !! t = Some n -> least_doubling DEF size c ->
  UINTPTR_MAX1 <= c \/ hd NULL answers = NULL \/
    (_region n <> NULL /\ hd NULL (tl answers) = NULL) ->
  Arena_alloc_units DEF fuel answers st h size = Ret (NULL, st) /\
  forall bytes, bytes <> 0 -> units bytes = size ->
    Arena_alloc DEF fuel answers st h bytes = Ret (NULL, st).
Proof.
  intros HD Hc Hne Hfresh Hsize Hfuel Hfit Hlast Hn Hleast Hcause.
  assert (Hrun : Arena_alloc_units DEF fuel answers st h size = Ret (NULL, st)).
  { destruct (Arena_alloc_units_outcome DEF HD fuel answers st h size l)
      as (p0 & st0 & Hrun & Hout); auto.
    inversion Hout; subst; try congruence; exfalso; tail_facts Hlast Hn;
      match goal with
      | H : least_doubling DEF size ?c' |- _ =>
          apply (least_doubling_unique _ _ _ _ Hleast) in H; subst c'
      end; cbn [hd tl] in Hcause;
      destruct Hcause as [?|[?|[? ?]]]; try lia; congruence. }
  split; [exact Hrun|]. intros bytes Hb <-. now rewrite Arena_alloc_nonzero.
Qed.

Lemma alloc_failure_keeps_state_witness :
  Arena_alloc_units 16 100 [6000; NULL] ex_full ex_head 1 = Ret (NULL, ex_full) /\
  forall bytes, bytes <> 0 -> units bytes = 1 ->
    Arena_alloc 16 100 [6000; NULL] ex_full ex_head bytes = Ret (NULL, ex_full).
Proof.
  apply (alloc_failure_keeps_state 16 100 [6000; NULL] ex_full ex_head 1 [ex_head]
           ex_head (mkArena 5000 16 16 NULL) 16).
  - unfold UINTPTR_MAX1. lia.
  - solve_chain.
  - discriminate.
  - intros q Hq Hnz. apply elem_of_cons in Hq as [->|Hq]; [split; vm_compute; reflexivity|].
    apply elem_of_cons in Hq as [->|Hq]; [contradiction|]. now apply elem_of_nil in Hq.
  - unfold UINTPTR_MAX1. lia.
  - simpl. lia.
  - vm_compute. reflexivity.
  - reflexivity.
  - vm_compute. reflexivity.
  - apply least_doubling_base; lia.
  - right. right. split; [discriminate|reflexivity].
Defined.

(** ** What an allocation touches *)

(** C7, as the code has it: a successful non-zero allocation advances the
    [_size] of exactly one region [a] of the resulting chain by the converted
    count (a node made by this call counting from 0); every other region of
    the chain keeps its buffer, [_size] and [_alloc_size], and keeps its
    [_next] too unless it is the old tail and [a] is a new node, which the
    old tail then points to. *)
Theorem alloc_frame DEF fuel answers st h size l p st' :
  0 < DEF < UINTPTR_MAX1 ->
  chain (nodes st) h l -> l <> [] -> chain_typed (nodes st) l -> fresh st answers ->
  0 < size < UINTPTR_MAX1 ->
  Arena_alloc DEF fuel answers st h size = Ret (p, st') -> p <> NULL ->
  exists a l', chain (nodes st') h l' /\ a ∈ l' /\
    (forall b, b ∈ l' -> b ∈ l \/ b = a) /\
    used_at st' a = wrap (used_at st a + units size) /\
    used_at st' a <> used_at st a /\
    forall b nb, b ∈ l -> b <> a -> nodes st !! b = Some nb ->
      exists nb', nodes st' !! b = Some nb' /\
        _region nb' = _region nb /\ _size nb' = _size nb /\
        _alloc_size nb' = _alloc_size nb /\
        (_next nb' = _next nb \/
         (last l = Some b /\ (a ∉ l) /\ _next nb = NULL /\ _next nb' = a)).
Proof.
  intros HD Hc Hne Hty Hfresh Hsize Hrun Hp.
  assert (Hsz : 0 <= size < UINTPTR_MAX1) by lia.
  destruct (units_bounds size Hsz) as (_ & Hu).
  assert (Hu' : 0 < units size < UINTPTR_MAX1) by (unfold UINTPTR_MAX1; lia).
  rewrite Arena_alloc_nonzero in Hrun by lia.
  pose proof (Arena_alloc_units_inv _ _ _ _ _ _ _ _ _ HD Hc Hne Hfresh Hu' Hrun) as Hout.
  assert (Hadv : forall u, 0 <= u < UINTPTR_MAX1 -> wrap (u + units size) <> u).
  { intros u Hu0. unfold wrap.
    destruct (Z_lt_le_dec (u + units size) UINTPTR_MAX1).
    - rewrite Z.mod_small; lia.
    - replace ((u + units size) mod UINTPTR_MAX1) with (u + units size - UINTPTR_MAX1);
        [lia|]. apply (Z.mod_unique _ _ 1); lia. }
  inversion Hout as [a n Hfit Hn|c|c|c t n q rest|c t n q rest Hfit Hl Hc64 Hlast Hn Hr Ea Hq
                    |c t n q q' rest Hfit Hl Hc64 Hlast Hn Hr Ea Hq Hq']; subst;
    try contradiction.
  - (* served by the first fit *)
    destruct (first_fit_Some _ _ _ _ Hfit) as (l1 & l2 & _ & El & _).
    assert (Ha : a ∈ l) by (rewrite El; apply elem_of_app; right; apply elem_of_cons; auto).
    assert (Eu : used_at st a = _size n) by (unfold used_at; now rewrite Hn).
    assert (Eu' : used_at (store st a (mkArena (_region n) (wrap (_size n + units size))
                    (_alloc_size n) (_next n))) a = wrap (_size n + units size)).
    { unfold used_at, store. cbn [nodes]. now rewrite lookup_insert_eq. }
    exists a, l. unfold store in *. cbn [nodes] in *.
    split; [eapply chain_insert_same_next; eauto|]. split; [assumption|].
    split; [auto|]. rewrite Eu', Eu. split; [reflexivity|].
    split; [apply Hadv; destruct (Hty a n Ha Hn) as [? _]; assumption|].
    intros b nb Hb Hba Hnb. exists nb. rewrite lookup_insert_ne by congruence. auto 6.
  - (* a new buffer for the blank tail *)
    assert (Ht : t ∈ l).
    { apply list_elem_of_lookup. rewrite last_lookup in Hlast. eauto. }
    assert (Eu : used_at st t = _size n) by (unfold used_at; now rewrite Hn).
    match goal with |- exists a l', chain (nodes ?s) _ _ /\ _ =>
      assert (Eu' : used_at s t = wrap (_size n + units size))
        by (unfold used_at; cbn [nodes]; now rewrite lookup_insert_eq)
    end.
    exists t, l. rewrite Eu', Eu. cbn [nodes].
    split; [eapply chain_insert_same_next; eauto|]. split; [assumption|].
    split; [auto|]. split; [reflexivity|].
    split; [apply Hadv; destruct (Hty t n Ht Hn) as [? _]; assumption|].
    intros b nb Hb Hba Hnb. exists nb. rewrite lookup_insert_ne by congruence. auto 6.
  - (* a new node after the tail *)
    assert (Hfq : nodes st !! q' = None).
    { apply Hfresh; [apply elem_of_cons; right; apply elem_of_cons; auto|auto]. }
    assert (Hql : q' ∉ l).
    { intros Hin. destruct (chain_lookup _ _ _ _ Hc Hin) as [x Hx]. congruence. }
    exists q', (l ++ [q']). unfold used_at. cbn [nodes]. rewrite lookup_insert_eq, Hfq.
    cbn [_size].
    split; [apply chain_snoc; auto|].
    split; [apply elem_of_app; right; apply list_elem_of_singleton; reflexivity|].
    split.
    { intros b Hb. apply elem_of_app in Hb as [Hb|Hb]; [auto|].
      apply list_elem_of_singleton in Hb. auto. }
    split; [rewrite wrap_small; lia|]. split; [lia|].
    intros b nb Hb Hba Hnb. rewrite lookup_insert_ne by congruence.
    destruct (Z.eq_dec b t) as [->|Hbt].
    + rewrite Hn in Hnb. injection Hnb as <-. rewrite lookup_insert_eq.
      eexists. split; [reflexivity|]. cbn. repeat split; auto.
      right. repeat split; auto. eapply chain_last_next; eauto.
    + exists nb. rewrite lookup_insert_ne by congruence. auto 6.
Qed.

Lemma alloc_frame_witness :
  exists a l', chain (nodes ex_one) ex_head l' /\ a ∈ l' /\
    (forall b, b ∈ l' -> b ∈ [ex_head] \/ b = a) /\
    used_at ex_one a = wrap (used_at ex_blank a + units 14) /\
    used_at ex_one a <> used_at ex_blank a /\
    forall b nb, b ∈ [ex_head] -> b <> a -> nodes ex_blank !! b = Some nb ->
      exists nb', nodes ex_one !! b = Some nb' /\
        _region nb' = _region nb /\ _size nb' = _size nb /\
        _alloc_size nb' = _alloc_size nb /\
        (_next nb' = _next nb \/
         (last [ex_head] = Some b /\ (a ∉ [ex_head]) /\ _next nb = NULL /\ _next nb' = a)).
Proof.
  apply (alloc_frame 16 100 [5000] ex_blank ex_head 14 [ex_head] 5000 ex_one).
  - unfold UINTPTR_MAX1. lia.
  - solve_chain.
  - discriminate.
  - intros a n Ha Hn. apply list_elem_of_singleton in Ha as ->.
    assert (E : nodes ex_blank !! ex_head = Some (mkArena NULL 0 0 NULL))
      by (vm_compute; reflexivity).
    rewrite E in Hn. injection Hn as <-. unfold typed, UINTPTR_MAX1, NULL. cbn. lia.
  - solve_fresh.
  - unfold UINTPTR_MAX1. lia.
  - vm_compute. reflexivity.
  - discriminate.
Defined.

(** C7 as stated fails when a node is appended: with the head full, the
    allocation is served by the new node at 7000, whose [_size] advances, and
    the head, another region of the chain, has its next link changed from
    [NULL] to 7000. *)
Lemma append_relinks_tail :
  exists st',
    Arena_alloc 16 100 [6000; 7000] ex_full ex_head 4 = Ret (6000, st') /\
    chain (nodes ex_full) ex_head [ex_head] /\
    chain (nodes st') ex_head [ex_head; 7000] /\
    used_at st' ex_head = used_at ex_full ex_head /\
    used_at st' 7000 <> used_at ex_full 7000 /\
    nodes ex_full !! ex_head = Some (mkArena 5000 16 16 NULL) /\
    nodes st' !! ex_head = Some (mkArena 5000 16 16 7000) /\
    nodes st' !! ex_head <> nodes ex_full !! ex_head.
Proof.
  eexists (mkHeap (<[7000 := mkArena 6000 2 16 NULL]>
                     {[ ex_head := mkArena 5000 16 16 7000 ]})
                  (<[7000 := 32]> (<[6000 := 16]> {[ 5000 := 16 ]}))).
  split; [vm_compute; reflexivity|].
  split; [solve_chain|]. split; [solve_chain|].
  repeat split; try (vm_compute; reflexivity); vm_compute; discriminate.
Qed.

(** ** Reset *)

(** C8, on the code: in the run [Arena_init; Arena_alloc(14); Arena_free;
    Arena_reset; Arena_alloc(14)] with [COOL_ARENA_DEF_SIZE = 16] the reset
    leaves the head with [_size = 0], and with the capacity 16 that
    [Arena_free] did not clear, on a head that has no buffer. The allocation
    that follows fits that capacity (4 units), passes the room check of the
    head and is served by the fast path: it returns [NULL + 0], which is
    [NULL], the value of a failed call, sets [_size = 4], and does not ask
    the backing allocator although it would answer. The allocation does not
    succeed. *)
Theorem reuse_after_free_returns_null :
  exists st1 p st2 st3 st4 n4 q st5 n5,
    Arena_init empty_heap ex_head = Ret st1 /\
    Arena_alloc 16 100 [5000] st1 ex_head 14 = Ret (p, st2) /\ p <> NULL /\
    Arena_free 100 st2 ex_head = Ret st3 /\
    Arena_reset 100 st3 ex_head = Ret st4 /\
    chain (nodes st4) ex_head [ex_head] /\
    nodes st4 !! ex_head = Some n4 /\ _region n4 = NULL /\
    _size n4 = 0 /\ _alloc_size n4 = 16 /\ units 14 <= _alloc_size n4 /\
    Arena_alloc 16 100 [6000] st4 ex_head 14 = Ret (q, st5) /\
    q = ptr_add (_region n4) 0 /\ q = NULL /\
    blocks st5 = blocks st4 /\
    nodes st5 !! ex_head = Some n5 /\ _region n5 = NULL /\
    _size n5 = units 14 /\ _alloc_size n5 = 16.
Proof.
  exists ex_blank, 5000, ex_one, ex_released.
  exists (mkHeap {[ ex_head := mkArena NULL 0 16 NULL ]} ∅), (mkArena NULL 0 16 NULL).
  exists NULL, (mkHeap {[ ex_head := mkArena NULL 4 16 NULL ]} ∅), (mkArena NULL 4 16 NULL).
  repeat split; try (vm_compute; reflexivity); try discriminate.
  econstructor; [discriminate|vm_compute; reflexivity|constructor].
Qed.

(** X21: any number [k >= 1] of consecutive calls of [Arena_reset] leaves
    every region of the chain with [_size = 0] and with the buffer, capacity
    and next link it had, and touches nothing else. In an arena whose regions
    satisfy the invariants of the data model, a following allocation whose
    converted size is at most the capacity of some region is served by the
    first such region in chain order: it returns that region's buffer (offset
    zero, not [NULL]) and only sets that region's [_size], so no region is
    added and the backing allocator is not asked. *)
Theorem reset_then_reuse DEF fuel k st h l :
  arena_ok st h l -> chain_typed (nodes st) l ->
  (0 < k)%nat -> (length l < fuel)%nat ->
  exists st', Arena_reset_times fuel k st h = Ret st' /\
    blocks st' = blocks st /\ chain (nodes st') h l /\
    (forall a n, a ∈ l -> nodes st !! a = Some n ->
       nodes st' !! a = Some (mkArena (_region n) 0 (_alloc_size n) (_next n))) /\
    (forall a, a ∉ l -> nodes st' !! a = nodes st !! a) /\
    forall size answers b nb,
      0 < size < UINTPTR_MAX1 ->
      b ∈ l -> nodes st !! b = Some nb -> units size <= _alloc_size nb ->
      exists a n, find (capacity_at_least (nodes st) (units size)) l = Some a /\
        nodes st !! a = Some n /\
        _region n <> NULL /\ ptr_add (_region n) 0 = _region n /\
        Arena_alloc DEF fuel answers st' h size =
          Ret (_region n,
               store st' a (mkArena (_region n) (units size) (_alloc_size n) (_next n))).
Proof.
  intros (Hc & Hne & Hok) Hty Hk Hfuel.
  destruct (Arena_reset_times_spec fuel k st h l Hc Hfuel)
    as (st' & Hrun & Hb & Hc' & _ & Hmap).
  destruct (Hmap Hk) as (Hin & Hout).
  exists st'. split; [assumption|]. split; [assumption|]. split; [assumption|].
  split; [exact Hin|]. split; [exact Hout|].
  intros size answers b nb Hsize Hbl Hnb Hcap.
  assert (Hsz : 0 <= size < UINTPTR_MAX1) by lia.
  destruct (units_bounds size Hsz) as (_ & Hu).
  destruct (find (capacity_at_least (nodes st) (units size)) l) as [a|] eqn:Hfind.
  2:{ apply list_elem_of_In in Hbl. pose proof (find_none _ _ Hfind b Hbl) as Hf.
      unfold capacity_at_least in Hf. rewrite Hnb in Hf. apply Z.leb_gt in Hf. lia. }
  destruct (find_some _ _ Hfind) as (Ha & Hfa). apply list_elem_of_In in Ha.
  destruct (chain_lookup _ _ _ _ Hc Ha) as [n Hn].
  exists a, n. split; [reflexivity|]. split; [assumption|].
  assert (Hbuf : _region n <> NULL).
  { unfold capacity_at_least in Hfa. rewrite Hn in Hfa. apply Z.leb_le in Hfa.
    destruct (Hok a n Ha Hn) as (_ & _ & Hiff). intros E. apply Hiff in E. lia. }
  split; [exact Hbuf|].
  assert (Hbase : ptr_add (_region n) 0 = _region n).
  { unfold ptr_add. rewrite Z.mul_0_r, Z.add_0_r. apply wrap_small.
    apply (Hty a n Ha Hn). }
  split; [exact Hbase|].
  rewrite Arena_alloc_nonzero by lia.
  rewrite (Arena_alloc_units_fast DEF fuel answers st' h (units size) l a (zeroed n));
    [| assumption | lia | | now apply Hin].
  - cbn [zeroed _region _size _alloc_size _next]. rewrite Hbase.
    rewrite wrap_small; [reflexivity|unfold UINTPTR_MAX1; lia].
  - unfold first_fit. rewrite <- Hfind. apply find_ext_in.
    intros x Hx. destruct (chain_lookup _ _ _ _ Hc Hx) as [nx Hnx].
    unfold room_at, capacity_at_least. rewrite (Hin x nx Hx Hnx), Hnx.
    unfold has_room. cbn. rewrite Z.sub_0_r, wrap_small; [reflexivity|].
    destruct (Hty x nx Hx Hnx) as (_ & ? & _). assumption.
Qed.

Lemma reset_then_reuse_witness :
  exists st', Arena_reset_times 100 2 ex_full ex_head = Ret st' /\
    blocks st' = blocks ex_full /\ chain (nodes st') ex_head [ex_head] /\
    (forall a n, a ∈ [ex_head] -> nodes ex_full !! a = Some n ->
       nodes st' !! a = Some (mkArena (_region n) 0 (_alloc_size n) (_next n))) /\
    (forall a, a ∉ [ex_head] -> nodes st' !! a = nodes ex_full !! a) /\
    forall size answers b nb,
      0 < size < UINTPTR_MAX1 ->
      b ∈ [ex_head] -> nodes ex_full !! b = Some nb -> units size <= _alloc_size nb ->
      exists a n, find (capacity_at_least (nodes ex_full) (units size)) [ex_head] = Some a /\
        nodes ex_full !! a = Some n /\
        _region n <> NULL /\ ptr_add (_region n) 0 = _region n /\
        Arena_alloc 16 100 answers st' ex_head size =
          Ret (_region n,
               store st' a (mkArena (_region n) (units size) (_alloc_size n) (_next n))).
Proof.
  assert (E : nodes ex_full !! ex_head = Some (mkArena 5000 16 16 NULL))
    by (vm_compute; reflexivity).
  apply (reset_then_reuse 16 100 2 ex_full ex_head [ex_head]).
  - split; [solve_chain|]. split; [discriminate|].
    intros a n Ha Hn. apply list_elem_of_singleton in Ha as ->.
    rewrite E in Hn. injection Hn as <-.
    unfold region_ok, UINTPTR_MAX1, NULL. cbn. repeat split; try lia; discriminate.
  - intros a n Ha Hn. apply list_elem_of_singleton in Ha as ->.
    rewrite E in Hn. injection Hn as <-. unfold typed, UINTPTR_MAX1, NULL. cbn. lia.
  - lia.
  - simpl. lia.
Defined.

(** Scenario D of the allocator's description: allocate, reset, allocate the
    same size again; the second pointer is the first. *)
Example reset_reuses_buffer :
  exists st1,
    Arena_reset 100 ex_one ex_head = Ret st1 /\
    Arena_alloc 16 100 [] st1 ex_head 14 = Ret (5000, ex_one).
Proof. eexists. split; [vm_compute; reflexivity|]. vm_compute. reflexivity. Qed.

(** * Further properties of arena.h *)

(** ** One call of [Arena_alloc], region by region *)

(** What a call does to the regions of an arena that satisfies the
    invariants: the chain is kept or extended at its end, no [_size] or
    [_alloc_size] goes down, a region that has a buffer keeps it with its
    capacity, and either nothing at all changed or one region [a] of the new
    chain served the request from offset [used_at st a] of its buffer. *)
Lemma alloc_outcome_step DEF answers st h size l p st' :
  0 < DEF -> arena_ok st h l -> fresh st answers -> 0 < size < UINTPTR_MAX1 ->
  alloc_outcome DEF answers st size l p st' ->
  exists l', arena_ok st' h l' /\ l `prefix_of` l' /\
    (forall b n, b ∈ l -> nodes st !! b = Some n ->
       exists n', nodes st' !! b = Some n' /\ _size n <= _size n' /\
         _alloc_size n <= _alloc_size n' /\
         (_region n <> NULL -> _region n' = _region n /\ _alloc_size n' = _alloc_size n)) /\
    ((p = NULL /\ st' = st) \/
     exists a n', a ∈ l' /\ nodes st' !! a = Some n' /\ _region n' <> NULL /\
       (p = ptr_add (_region n') (used_at st a) \/
        (used_at st a = 0 /\ p = _region n' /\ p ∈ answers)) /\
       _size n' = used_at st a + size /\ 0 <= used_at st a /\
       _size n' <= _alloc_size n' /\
       forall b, b <> a -> used_at st' b = used_at st b).
Proof.
  intros HD Hok Hfresh Hsize Hout.
  destruct (alloc_outcome_ok DEF answers st h size l p st' HD Hok Hfresh Hsize Hout)
    as ((l0 & Hok0 & _) & _).
  pose proof Hok as (Hc & Hne & Hreg). pose proof Hok0 as (Hc0 & _ & Hreg0).
  assert (Hsame : forall b n, b ∈ l -> nodes st !! b = Some n ->
            exists n', nodes st !! b = Some n' /\ _size n <= _size n' /\
              _alloc_size n <= _alloc_size n' /\
              (_region n <> NULL -> _region n' = _region n /\ _alloc_size n' = _alloc_size n)).
  { intros b n _ Hn. exists n. repeat split; auto; lia. }
  inversion Hout as [a n Hfit Hn|c|c|c t n q rest|c t n q rest Hfit Hl Hc64 Hlast Hn Hr Ea Hq
                    |c t n q q' rest Hfit Hl Hc64 Hlast Hn Hr Ea Hq Hq']; subst;
    try (exists l; rewrite (chain_functional _ _ _ _ Hc0 Hc) in Hok0;
         split; [exact Hok0|]; split; [reflexivity|]; split; [exact Hsame|]; left; auto).
  - (* served by the first fit *)
    destruct (first_fit_Some _ _ _ _ Hfit) as (l1 & l2 & n0 & El & Hn0 & Hroom & _).
    rewrite Hn in Hn0. injection Hn0 as <-.
    assert (Ha : a ∈ l) by (rewrite El; apply elem_of_app; right; apply elem_of_cons; auto).
    pose proof (Hreg a n Ha Hn) as Hokn.
    destruct (has_room_ok size n Hokn) as (Hle & Hw); [lia|assumption|].
    destruct Hokn as (Hs & Hcap & Hbuf).
    assert (Hc1 : chain (nodes (store st a (mkArena (_region n) (wrap (_size n + size))
                    (_alloc_size n) (_next n)))) h l).
    { unfold store. cbn [nodes]. eapply chain_insert_same_next; eauto. }
    rewrite (chain_functional _ _ _ _ Hc0 Hc1) in Hok0.
    assert (Eu : used_at st a = _size n) by (unfold used_at; now rewrite Hn).
    exists l. split; [exact Hok0|]. split; [reflexivity|]. unfold store in *. cbn [nodes] in *.
    split.
    + intros b nb Hb Hnb. destruct (Z.eq_dec b a) as [->|Hba].
      * rewrite Hn in Hnb. injection Hnb as <-. rewrite lookup_insert_eq.
        eexists. split; [reflexivity|]. cbn. rewrite Hw. repeat split; auto; lia.
      * rewrite lookup_insert_ne by congruence. exists nb. repeat split; auto; lia.
    + right. exists a. eexists. split; [assumption|]. split; [apply lookup_insert_eq|].
      cbn [_region _size _alloc_size]. rewrite Eu, Hw.
      split; [intros E; apply Hbuf in E; lia|]. split; [left; reflexivity|].
      split; [reflexivity|]. split; [lia|]. split; [lia|].
      intros b Hb. unfold used_at. cbn [nodes]. now rewrite lookup_insert_ne by congruence.
  - (* a new buffer for the blank tail *)
    assert (Ht : t ∈ l).
    { apply list_elem_of_lookup. rewrite last_lookup in Hlast. eauto. }
    destruct (Hreg t n Ht Hn) as (Hs & Hcap & Hbuf).
    assert (Hz : _alloc_size n = 0) by (now apply Hbuf).
    assert (Hz' : _size n = 0) by lia.
    pose proof Hl as (_ & Hsc & _).
    assert (Hw : wrap (_size n + size) = size) by (rewrite Hz', wrap_small; lia).
    cbn [nodes] in *.
    assert (Hc1 : chain (<[t := mkArena p (wrap (_size n + size)) c (_next n)]> (nodes st)) h l).
    { eapply chain_insert_same_next; eauto. }
    rewrite (chain_functional _ _ _ _ Hc0 Hc1) in Hok0.
    assert (Eu : used_at st t = 0) by (unfold used_at; now rewrite Hn).
    exists l. split; [exact Hok0|]. split; [reflexivity|]. split.
    + intros b nb Hb Hnb. destruct (Z.eq_dec b t) as [->|Hbt].
      * rewrite Hn in Hnb. injection Hnb as <-. rewrite lookup_insert_eq.
        eexists. split; [reflexivity|]. cbn. rewrite Hw.
        split; [lia|]. split; [lia|]. intros; contradiction.
      * rewrite lookup_insert_ne by congruence. exists nb. repeat split; auto; lia.
    + right. exists t. eexists. split; [assumption|]. split; [apply lookup_insert_eq|].
      cbn [_region _size _alloc_size]. rewrite Eu, Hw.
      split; [assumption|]. split.
      { right. repeat split; auto. apply elem_of_cons; auto. }
      split; [lia|]. split; [lia|]. split; [lia|].
      intros b Hb. unfold used_at. cbn [nodes]. now rewrite lookup_insert_ne by congruence.
  - (* a new node after the tail *)
    assert (Ht : t ∈ l).
    { apply list_elem_of_lookup. rewrite last_lookup in Hlast. eauto. }
    assert (Hfq : nodes st !! q' = None).
    { apply Hfresh; [apply elem_of_cons; right; apply elem_of_cons; auto|auto]. }
    assert (Hql : q' ∉ l).
    { intros Hin. destruct (chain_lookup _ _ _ _ Hc Hin) as [x Hx]. congruence. }
    pose proof Hl as (_ & Hsc & _).
    cbn [nodes] in *.
    assert (Hc1 : chain (<[q' := mkArena p size c NULL]>
                     (<[t := mkArena (_region n) (_size n) (_alloc_size n) q']> (nodes st)))
                    h (l ++ [q'])) by (apply chain_snoc; auto).
    rewrite (chain_functional _ _ _ _ Hc0 Hc1) in Hok0.
    assert (Eu : used_at st q' = 0) by (unfold used_at; now rewrite Hfq).
    exists (l ++ [q']). split; [exact Hok0|]. split; [now apply prefix_app_r|]. split.
    + intros b nb Hb Hnb. assert (b <> q') by (intros ->; contradiction).
      rewrite lookup_insert_ne by congruence.
      destruct (Z.eq_dec b t) as [->|Hbt].
      * rewrite Hn in Hnb. injection Hnb as <-. rewrite lookup_insert_eq.
        eexists. split; [reflexivity|]. cbn. repeat split; auto; lia.
      * rewrite lookup_insert_ne by congruence. exists nb. repeat split; auto; lia.
    + right. exists q'. eexists.
      split; [apply elem_of_app; right; apply list_elem_of_singleton; reflexivity|].
      split; [apply lookup_insert_eq|]. cbn [_region _size _alloc_size]. rewrite Eu.
      split; [assumption|]. split.
      { right. repeat split; auto. apply elem_of_cons; auto. }
      split; [lia|]. split; [lia|]. split; [lia|].
      intros b Hb. unfold used_at. cbn [nodes]. rewrite lookup_insert_ne by congruence.
      destruct (Z.eq_dec b t) as [->|Hbt].
      * now rewrite lookup_insert_eq, Hn.
      * now rewrite lookup_insert_ne by congruence.
Qed.

Lemma Arena_alloc_step DEF fuel answers st h size l p st' :
  0 < DEF < UINTPTR_MAX1 -> arena_ok st h l -> fresh st answers ->
  0 <= size < UINTPTR_MAX1 ->
  Arena_alloc DEF fuel answers st h size = Ret (p, st') ->
  exists l', arena_ok st' h l' /\ l `prefix_of` l' /\
    (forall b n, b ∈ l -> nodes st !! b = Some n ->
       exists n', nodes st' !! b = Some n' /\ _size n <= _size n' /\
         _alloc_size n <= _alloc_size n' /\
         (_region n <> NULL -> _region n' = _region n /\ _alloc_size n' = _alloc_size n)) /\
    ((p = NULL /\ st' = st) \/
     exists a n', a ∈ l' /\ nodes st' !! a = Some n' /\ _region n' <> NULL /\
       (p = ptr_add (_region n') (used_at st a) \/
        (used_at st a = 0 /\ p = _region n' /\ p ∈ answers)) /\
       _size n' = used_at st a + units size /\ 0 <= used_at st a /\
       _size n' <= _alloc_size n' /\
       forall b, b <> a -> used_at st' b = used_at st b).
Proof.
  intros HD Hok Hfresh Hsize Hrun.
  destruct (Z.eq_dec size 0) as [->|Hnz].
  - injection Hrun as <- <-. exists l. split; [assumption|]. split; [reflexivity|].
    split; [|left; auto]. intros b n _ Hn. exists n. repeat split; auto; lia.
  - rewrite Arena_alloc_nonzero in Hrun by assumption.
    destruct (units_bounds size Hsize) as (_ & Hu).
    assert (Hu' : 0 < units size < UINTPTR_MAX1) by (unfold UINTPTR_MAX1; lia).
    pose proof Hok as (Hc & Hne & _).
    pose proof (Arena_alloc_units_inv _ _ _ _ _ _ _ _ _ HD Hc Hne Hfresh Hu' Hrun) as Hout.
    apply (alloc_outcome_step DEF answers st h (units size) l p st'); auto. lia.
Qed.


(** ** Blocks handed out *)

(** X1: a successful allocation hands out the units
    [used, used + units size) of one region's buffer: the pointer returned is
    that region's buffer advanced by the [_size] the region had before the
    call, the region's [_size] advances by the converted count, and the end of
    the block is within the region's capacity. *)
Theorem alloc_block_in_capacity DEF fuel answers st h size l p st' :
  0 < DEF < UINTPTR_MAX1 -> arena_ok st h l ->
  fresh st answers -> pointers answers -> 0 < size < UINTPTR_MAX1 ->
  Arena_alloc DEF fuel answers st h size = Ret (p, st') -> p <> NULL ->
  exists a n', nodes st' !! a = Some n' /\ _region n' <> NULL /\
    p = ptr_add (_region n') (used_at st a) /\
    used_at st' a = used_at st a + units size /\
    0 <= used_at st a /\ used_at st' a <= _alloc_size n'.
Proof.
  intros HD Hok Hfresh Hptr Hsize Hrun Hp.
  assert (Hsize' : 0 <= size < UINTPTR_MAX1) by lia.
  destruct (Arena_alloc_step _ _ _ _ _ _ _ _ _ HD Hok Hfresh Hsize' Hrun)
    as (l1 & _ & _ & _ & [(E & _)|(a & n' & _ & Hn' & Hr & Hptr' & Hs & H0 & Hle & _)]);
    [contradiction|].
  exists a, n'. split; [assumption|]. split; [assumption|].
  assert (Eu : used_at st' a = _size n') by (unfold used_at; now rewrite Hn').
  rewrite Eu. repeat split; auto.
  destruct Hptr' as [->|(Ez & -> & Hin)]; [reflexivity|].
  rewrite Ez. unfold ptr_add. rewrite Z.mul_0_r, Z.add_0_r, wrap_small; auto.
Qed.

Lemma alloc_block_in_capacity_witness :
  exists a n', nodes ex_one !! a = Some n' /\ _region n' <> NULL /\
    5000 = ptr_add (_region n') (used_at ex_blank a) /\
    used_at ex_one a = used_at ex_blank a + units 14 /\
    0 <= used_at ex_blank a /\ used_at ex_one a <= _alloc_size n'.
Proof.
  apply (alloc_block_in_capacity 16 100 [5000] ex_blank ex_head 14 [ex_head] 5000 ex_one).
  - unfold UINTPTR_MAX1. lia.
  - apply (Arena_init_ok empty_heap). reflexivity.
  - solve_fresh.
  - intros q Hq. apply list_elem_of_singleton in Hq as ->. unfold UINTPTR_MAX1. lia.
  - unfold UINTPTR_MAX1. lia.
  - vm_compute. reflexivity.
  - discriminate.
Defined.



(** X3: in an arena whose regions satisfy the invariants of the data model
    ([_size <= _alloc_size], buffer present iff capacity non-zero), a call of
    [Arena_alloc] that returns, with [NULL] or with a block, removes no
    region from the chain (the old chain is a prefix of the new one), lowers
    no capacity, and leaves a region that has a buffer with that buffer and
    that capacity. *)
Theorem alloc_keeps_regions DEF fuel answers st h size l p st' :
  0 < DEF < UINTPTR_MAX1 -> arena_ok st h l -> fresh st answers ->
  0 <= size < UINTPTR_MAX1 ->
  Arena_alloc DEF fuel answers st h size = Ret (p, st') ->
  exists l', chain (nodes st') h l' /\ l `prefix_of` l' /\
    forall b n, b ∈ l -> nodes st !! b = Some n ->
      exists n', nodes st' !! b = Some n' /\ _alloc_size n <= _alloc_size n' /\
        (_region n <> NULL -> _region n' = _region n /\ _alloc_size n' = _alloc_size n).
Proof.
  intros HD Hok Hfresh Hsize Hrun.
  destruct (Arena_alloc_step _ _ _ _ _ _ _ _ _ HD Hok Hfresh Hsize Hrun)
    as (l1 & (Hc1 & _) & Hpre & Hkeep & _).
  exists l1. split; [assumption|]. split; [assumption|].
  intros b n Hb Hn. destruct (Hkeep b n Hb Hn) as (n' & Hn' & _ & Hcap & Hr).
  exists n'. auto.
Qed.

Lemma alloc_keeps_regions_witness :
  exists l', chain (nodes ex_two) ex_head l' /\ [ex_head] `prefix_of` l' /\
    forall b n, b ∈ [ex_head] -> nodes ex_one !! b = Some n ->
      exists n', nodes ex_two !! b = Some n' /\ _alloc_size n <= _alloc_size n' /\
        (_region n <> NULL -> _region n' = _region n /\ _alloc_size n' = _alloc_size n).
Proof.
  assert (E : nodes ex_one !! ex_head = Some (mkArena 5000 4 16 NULL))
    by (vm_compute; reflexivity).
  apply (alloc_keeps_regions 16 100 [] ex_one ex_head 14 [ex_head] 5032 ex_two).
  - unfold UINTPTR_MAX1. lia.
  - split; [solve_chain|]. split; [discriminate|].
    intros a n Ha Hn. apply list_elem_of_singleton in Ha as ->.
    rewrite E in Hn. injection Hn as <-.
    unfold region_ok, UINTPTR_MAX1, NULL. cbn. repeat split; try lia; discriminate.
  - solve_fresh.
  - unfold UINTPTR_MAX1. lia.
  - vm_compute. reflexivity.
Defined.

(** ** Invariants, termination, configuration *)

(** X4: in every state that calls of [Arena_init], [Arena_alloc] (successful
    or not) and [Arena_reset] lead to, following [_next] from the head
    reaches [NULL] after visiting at least the head and no region twice, and
    each region visited has [_size <= _alloc_size] and has a buffer exactly
    when its capacity is not zero. *)
Theorem reachable_invariants DEF h st :
  0 < DEF < UINTPTR_MAX1 -> reachable DEF h st ->
  exists l, chain (nodes st) h l /\ l <> [] /\ NoDup l /\
    forall a n, a ∈ l -> nodes st !! a = Some n ->
      0 <= _size n <= _alloc_size n /\ (_region n <> NULL <-> 0 < _alloc_size n).
Proof.
  intros HD Hreach.
  destruct (reachable_ok DEF h st HD Hreach) as (l & Hc & Hne & Hok).
  exists l. split; [assumption|]. split; [assumption|].
  split; [eapply chain_NoDup; eassumption|].
  intros a n Ha Hn.
  destruct (Hok a n Ha Hn) as (Hs & _ & Hbuf). split; [assumption|]. split.
  - intros Hr. destruct (Z.eq_dec (_alloc_size n) 0) as [E|]; [|lia].
    apply Hbuf in E. contradiction.
  - intros Hcap E. apply Hbuf in E. lia.
Qed.

Lemma reachable_invariants_witness :
  exists l,
    chain (nodes (mkHeap {[ ex_head := mkArena 5000 0 16 NULL ]} {[ 5000 := 16 ]}))
          ex_head l /\ l <> [] /\ NoDup l /\
    forall a n, a ∈ l ->
      nodes (mkHeap {[ ex_head := mkArena 5000 0 16 NULL ]} {[ 5000 := 16 ]}) !! a = Some n ->
      0 <= _size n <= _alloc_size n /\ (_region n <> NULL <-> 0 < _alloc_size n).
Proof.
  apply (reachable_invariants 16 ex_head).
  - unfold UINTPTR_MAX1. lia.
  - apply (reach_reset 16 ex_head ex_one 100).
    + apply (reach_alloc 16 ex_head ex_blank 100 [5000] 14 5000).
      * apply (reach_init 16 ex_head empty_heap). reflexivity.
      * solve_fresh.
      * unfold UINTPTR_MAX1. lia.
      * vm_compute. reflexivity.
    + vm_compute. reflexivity.
Defined.

(** X5: on a chain that ends (no cycle), with [COOL_ARENA_DEF_SIZE] not
    zero, a call of [Arena_alloc] returns: it dereferences no pointer that
    holds no [Arena], the walk takes at most as many steps as the chain has
    regions and the doubling at most 64. *)
Theorem Arena_alloc_returns DEF fuel answers st h size l :
  0 < DEF < UINTPTR_MAX1 ->
  chain (nodes st) h l -> l <> [] -> fresh st answers ->
  0 <= size < UINTPTR_MAX1 -> (64 + length l <= fuel)%nat ->
  exists p st', Arena_alloc DEF fuel answers st h size = Ret (p, st').
Proof.
  intros HD Hc Hne Hfresh Hsize Hfuel.
  destruct (Z.eq_dec size 0) as [->|Hnz]; [eexists _, _; reflexivity|].
  rewrite Arena_alloc_nonzero by assumption.
  destruct (units_bounds size Hsize) as (_ & Hu).
  destruct (Arena_alloc_units_outcome DEF HD fuel answers st h (units size) l)
    as (p & st' & Hrun & _); auto; [unfold UINTPTR_MAX1; lia|].
  eauto.
Qed.

Lemma Arena_alloc_returns_witness :
  exists p st', Arena_alloc 16 100 [6000; 7000] ex_full ex_head 128 = Ret (p, st').
Proof.
  apply (Arena_alloc_returns 16 100 [6000; 7000] ex_full ex_head 128 [ex_head]).
  - unfold UINTPTR_MAX1. lia.
  - solve_chain.
  - discriminate.
  - solve_fresh.
  - unfold UINTPTR_MAX1. lia.
  - simpl. lia.
Defined.

(** X6: for a request given in bytes the doubling never reaches its overflow
    check's [return NULL]: the converted count is at most [2^62], and the
    loop ends with a capacity that fits [uintptr_t]. *)
Theorem doubling_fits_for_byte_requests DEF fuel size :
  0 < DEF < UINTPTR_MAX1 -> 0 <= size < UINTPTR_MAX1 -> (64 <= fuel)%nat ->
  exists c, Arena_alloc_capacity fuel (wrap DEF) (units size) = Ret (Some c) /\
    least_doubling DEF (units size) c /\ c < UINTPTR_MAX1.
Proof.
  intros HD Hsize Hfuel. rewrite (wrap_small DEF) by lia.
  destruct (capacity_units DEF fuel size HD Hsize Hfuel) as (c & Hl & Hc & Hrun).
  eauto.
Qed.

Lemma doubling_fits_for_byte_requests_witness :
  exists c, Arena_alloc_capacity 64 (wrap 16) (units (2 ^ 64 - 1)) = Ret (Some c) /\
    least_doubling 16 (units (2 ^ 64 - 1)) c /\ c < UINTPTR_MAX1.
Proof.
  apply (doubling_fits_for_byte_requests 16 64 (2 ^ 64 - 1)); unfold UINTPTR_MAX1; lia.
Defined.

Lemma capacity_zero_timeout fuel size :
  0 < size -> Arena_alloc_capacity fuel 0 size = Timeout.
Proof.
  intros Hs. induction fuel as [|fuel IH]; [reflexivity|].
  cbn [Arena_alloc_capacity]. destruct (Z.ltb_spec 0 size); [|lia].
  change (wrap (Z.shiftl 0 1)) with 0. change (0 >? 0) with false. exact IH.
Qed.

Lemma walk_no_room fuel st h size l :
  chain (nodes st) h l -> l <> [] -> first_fit (nodes st) size l = None ->
  Arena_alloc_walk fuel st h size = Ret (List.last l NULL) \/
  Arena_alloc_walk fuel st h size = Timeout.
Proof.
  intros Hc Hne Hfit.
  destruct (le_lt_dec (length l) fuel) as [Hle|Hlt].
  - left. rewrite (walk_spec fuel st h size l Hc Hne Hle). unfold walk_stop. now rewrite Hfit.
  - right. clear Hne. revert fuel Hlt. induction Hc as [|a n l Ha Hn Hc IH]; intros fuel Hlt.
    + simpl in Hlt. lia.
    + destruct fuel as [|fuel]; [reflexivity|]. simpl in Hlt.
      cbn [Arena_alloc_walk]. rewrite (load_lookup st a n Ha Hn). cbn [mbind res_bind].
      unfold first_fit in Hfit. cbn [find] in Hfit. unfold room_at at 1 in Hfit.
      rewrite Hn in Hfit. destruct (has_room size n) eqn:Hroom; [discriminate|].
      rewrite orb_false_r. destruct (Z.eqb_spec (_next n) NULL) as [E|E].
      * rewrite E in Hc. inversion Hc; subst; [simpl in Hlt; lia|contradiction].
      * apply IH; [exact Hfit|lia].
Qed.

(** X7: with [COOL_ARENA_DEF_SIZE] set to 0 the doubling loop never ends:
    0 doubled is 0 and the overflow check does not fire, so a request that no
    region has room for makes [Arena_alloc] run out of any amount of fuel. *)
Theorem zero_default_size_never_returns fuel answers st h size l :
  chain (nodes st) h l -> l <> [] -> 0 < size < UINTPTR_MAX1 ->
  first_fit (nodes st) (units size) l = None ->
  Arena_alloc 0 fuel answers st h size = Timeout.
Proof.
  intros Hc Hne Hsize Hfit.
  assert (Hsz : 0 <= size < UINTPTR_MAX1) by lia.
  destruct (units_bounds size Hsz) as (_ & Hu).
  rewrite Arena_alloc_nonzero by lia. unfold Arena_alloc_units.
  destruct (walk_no_room fuel st h (units size) l Hc Hne Hfit) as [->| ->]; [|reflexivity].
  cbn [mbind res_bind].
  pose proof (last_default_Some l Hne) as Hlast.
  assert (Ht : List.last l NULL ∈ l).
  { apply list_elem_of_lookup. rewrite last_lookup in Hlast. eauto. }
  destruct (chain_lookup _ _ _ _ Hc Ht) as [n Hn].
  rewrite (load_lookup st _ n (chain_nonnull _ _ _ _ Hc Ht) Hn). cbn [mbind res_bind].
  pose proof (first_fit_None _ _ _ Hfit _ Ht) as Hroom.
  unfold room_at in Hroom. rewrite Hn in Hroom. rewrite Hroom.
  change (wrap 0) with 0. rewrite capacity_zero_timeout by lia. reflexivity.
Qed.

Lemma zero_default_size_never_returns_witness :
  Arena_alloc 0 1000 [5000] ex_blank ex_head 14 = Timeout.
Proof.
  apply (zero_default_size_never_returns 1000 [5000] ex_blank ex_head 14 [ex_head]).
  - solve_chain.
  - discriminate.
  - unfold UINTPTR_MAX1. lia.
  - vm_compute. reflexivity.
Defined.

(** ** Bytes and units *)

Lemma least_doubling_below_twice def size c :
  0 < def < size -> least_doubling def size c -> c < 2 * size.
Proof.
  intros Hd ((k & Hk & ->) & Hle & Hmin).
  destruct (Z.eq_dec k 0) as [->|Hk0]; [rewrite Z.pow_0_r in Hle; lia|].
  assert (E : def * 2 ^ k = 2 * (def * 2 ^ (k - 1))).
  { replace k with ((k - 1) + 1) at 1 by ring. rewrite Z.pow_add_r by lia.
    change (2 ^ 1) with 2. ring. }
  destruct (Z_lt_le_dec (def * 2 ^ (k - 1)) size) as [Hlt|Hge]; [lia|].
  assert (Hd' : doubling def (def * 2 ^ (k - 1))) by (exists (k - 1); split; [lia|reflexivity]).
  pose proof (Hmin _ Hd' Hge).
  assert (0 < def * 2 ^ (k - 1)) by (apply Z.mul_pos_pos; [lia|apply Z.pow_pos_nonneg; lia]).
  lia.
Qed.

(** X8: when [Arena_alloc] makes a new buffer, the byte count it asks of the
    backing allocator is the capacity [c] that the region then counts in
    [uintptr_t] units; and once the request exceeds the default size in
    units, [c] is smaller than the request in bytes: the buffer handed back
    is shorter than what was asked for. *)
Theorem new_buffer_has_capacity_bytes DEF fuel answers st h size l p st' :
  0 < DEF < UINTPTR_MAX1 ->
  chain (nodes st) h l -> l <> [] -> fresh st answers -> NoDup answers ->
  0 < size < UINTPTR_MAX1 ->
  first_fit (nodes st) (units size) l = None ->
  Arena_alloc DEF fuel answers st h size = Ret (p, st') -> p <> NULL ->
  exists c a n', least_doubling DEF (units size) c /\
    nodes st' !! a = Some n' /\ _region n' = p /\ _alloc_size n' = c /\
    blocks st' !! p = Some c /\
    (DEF < units size -> c < size).
Proof.
  intros HD Hc Hne Hfresh Hnd Hsize Hfit Hrun Hp.
  assert (Hsz : 0 <= size < UINTPTR_MAX1) by lia.
  destruct (units_bounds size Hsz) as (Eu & Hu).
  assert (Hu' : 0 < units size < UINTPTR_MAX1) by (unfold UINTPTR_MAX1; lia).
  rewrite Arena_alloc_nonzero in Hrun by lia.
  pose proof (Arena_alloc_units_inv _ _ _ _ _ _ _ _ _ HD Hc Hne Hfresh Hu' Hrun) as Hout.
  assert (Hshort : forall c, least_doubling DEF (units size) c -> DEF < units size -> c < size).
  { intros c Hl Hd. pose proof (least_doubling_below_twice DEF (units size) c) as Hlt.
    assert (c < 2 * units size) by (apply Hlt; [lia|assumption]).
    pose proof (Z.div_mod size 4 ltac:(lia)) as Hdm.
    pose proof (Z.mod_pos_bound size 4 ltac:(lia)). lia. }
  inversion Hout as [a n Hfit' Hn|c|c|c t n q rest|c t n q rest Hfit' Hl Hc64 Hlast Hn Hr Ea Hq
                    |c t n q q' rest Hfit' Hl Hc64 Hlast Hn Hr Ea Hq Hq']; subst;
    try congruence.
  - exists c, t. eexists. split; [assumption|]. cbn [nodes blocks].
    split; [apply lookup_insert_eq|]. cbn. repeat split; auto. apply lookup_insert_eq.
  - exists c, q'. eexists. split; [assumption|]. cbn [nodes blocks].
    split; [apply lookup_insert_eq|]. cbn. repeat split; auto.
    assert (q' <> p).
    { intros ->. inversion Hnd as [|? ? Hnin _]; subst. apply Hnin. apply elem_of_cons. auto. }
    rewrite lookup_insert_ne by assumption. apply lookup_insert_eq.
Qed.

Lemma new_buffer_has_capacity_bytes_witness :
  exists c a n', least_doubling 16 (units 128) c /\
    nodes (mkHeap (<[7000 := mkArena 6000 33 64 NULL]>
                     {[ ex_head := mkArena 5000 16 16 7000 ]})
                  (<[7000 := 32]> (<[6000 := 64]> {[ 5000 := 16 ]}))) !! a = Some n' /\
    _region n' = 6000 /\ _alloc_size n' = c /\
    blocks (mkHeap (<[7000 := mkArena 6000 33 64 NULL]>
                      {[ ex_head := mkArena 5000 16 16 7000 ]})
                   (<[7000 := 32]> (<[6000 := 64]> {[ 5000 := 16 ]}))) !! 6000 = Some c /\
    (16 < units 128 -> c < 128).
Proof.
  apply (new_buffer_has_capacity_bytes 16 100 [6000; 7000] ex_full ex_head 128 [ex_head]).
  - unfold UINTPTR_MAX1. lia.
  - solve_chain.
  - discriminate.
  - solve_fresh.
  - repeat constructor; [|intros Hin; now apply elem_of_nil in Hin].
    intros Hin. apply list_elem_of_singleton in Hin. discriminate.
  - unfold UINTPTR_MAX1. lia.
  - vm_compute. reflexivity.
  - vm_compute. reflexivity.
  - discriminate.
Defined.

(** ** More on [Arena_free] *)

Lemma Arena_free_blocks fuel st h l :
  chain (nodes st) h l -> (length l < fuel)%nat ->
  exists st', Arena_free fuel st h = Ret st' /\
    (forall q, blocks st' !! q = None \/ blocks st' !! q = blocks st !! q) /\
    (forall a n, a ∈ l -> nodes st !! a = Some n -> _region n <> NULL ->
       blocks st' !! _region n = None) /\
    (forall q, (forall a n, a ∈ l -> nodes st !! a = Some n -> _region n <> q) ->
       blocks st' !! q = blocks st !! q).
Proof.
  revert st h fuel. induction l as [|a0 l IH]; intros st h fuel Hc Hfuel;
    (destruct fuel as [|fuel]; [simpl in Hfuel; lia|]); cbn [Arena_free].
  - inversion Hc; subst. change (NULL =? NULL) with true. cbv iota.
    exists st. split; [reflexivity|]. split; [auto|]. split; [|auto].
    intros a n Hin. now apply elem_of_nil in Hin.
  - inversion Hc as [|a n l' Ha Hn Hc']; subst. simpl in Hfuel.
    destruct (Z.eqb_spec a0 NULL) as [|_]; [contradiction|].
    rewrite (load_lookup st a0 n Ha Hn). cbn [mbind res_bind].
    rewrite load_store by assumption. cbn [mbind res_bind _region _size _alloc_size].
    assert (Hfr : a0 ∉ l) by (eapply chain_head_fresh; eassumption).
    match goal with |- context [Arena_free fuel ?s (_next n)] => set (st3 := s) end.
    assert (Hn3 : nodes st3 = <[a0 := released n]> (nodes st)).
    { unfold st3, store, free. cbn [nodes].
      destruct (_region n =? NULL); cbn [nodes]; now rewrite insert_insert_eq. }
    assert (Hb3 : blocks st3 = blocks (free (_region n) st)) by reflexivity.
    assert (Hb3' : forall q, blocks st3 !! q =
              if decide (q = _region n /\ q <> NULL) then None else blocks st !! q).
    { intros q. rewrite Hb3. unfold free.
      destruct (Z.eqb_spec (_region n) NULL) as [E|E]; cbn [blocks].
      - destruct (decide (q = _region n /\ q <> NULL)) as [[-> ?]|]; [contradiction|auto].
      - destruct (decide (q = _region n /\ q <> NULL)) as [[-> ?]|Hno].
        + apply lookup_delete_eq.
        + apply lookup_delete_ne. intros <-. apply Hno. auto. }
    assert (Hc3 : chain (nodes st3) (_next n) l).
    { rewrite Hn3. apply chain_frame with (m := nodes st); [assumption|].
      intros b nb Hbl Hnb. exists nb. split; [|reflexivity].
      rewrite lookup_insert_ne; [assumption|]. intros ->. contradiction. }
    assert (Hl3 : forall b, b ∈ l -> nodes st3 !! b = nodes st !! b).
    { intros b Hb. rewrite Hn3. apply lookup_insert_ne. intros ->. contradiction. }
    destruct (IH st3 (_next n) fuel Hc3) as (st' & Hrun & Hmono & Hgone & Hkept); [lia|].
    exists st'. split; [exact Hrun|]. split; [|split].
    + intros q. destruct (Hmono q) as [E|E]; [auto|]. rewrite E, Hb3'.
      destruct (decide (q = _region n /\ q <> NULL)); auto.
    + intros b nb Hb Hnb Hr. apply elem_of_cons in Hb as [->|Hb].
      * rewrite Hn in Hnb. injection Hnb as <-.
        destruct (Hmono (_region n)) as [E|E]; [assumption|]. rewrite E, Hb3'.
        destruct (decide (_region n = _region n /\ _region n <> NULL)) as [|Hno]; [auto|].
        exfalso. apply Hno. auto.
      * apply (Hgone b nb Hb); [|assumption]. now rewrite Hl3.
    + intros q Hq. rewrite Hkept.
      * rewrite Hb3'. destruct (decide (q = _region n /\ q <> NULL)) as [[-> _]|]; [|auto].
        exfalso. apply (Hq a0 n); [apply elem_of_cons; auto|assumption|reflexivity].
      * intros b nb Hb Hnb. rewrite Hl3 in Hnb by assumption.
        apply (Hq b nb); [apply elem_of_cons; auto|assumption].
Qed.

(** X9: on any chain that ends, [Arena_free] returns; afterwards every region
    of the chain has [_region = NULL] and [_next = NULL] with its [_size] and
    [_alloc_size] as before, no buffer of the chain is a live block of the
    backing allocator any more, and no [Arena] outside the chain is
    touched. *)
Theorem Arena_free_releases_buffers fuel st h l :
  chain (nodes st) h l -> (length l < fuel)%nat ->
  exists st', Arena_free fuel st h = Ret st' /\
    (forall a n, a ∈ l -> nodes st !! a = Some n ->
       nodes st' !! a = Some (mkArena NULL (_size n) (_alloc_size n) NULL) /\
       (_region n <> NULL -> blocks st' !! _region n = None)) /\
    (forall a, a ∉ l -> nodes st' !! a = nodes st !! a).
Proof.
  intros Hc Hfuel.
  destruct (Arena_free_spec fuel st h l Hc Hfuel) as (st' & Hrun & Hin & Hout).
  destruct (Arena_free_blocks fuel st h l Hc Hfuel) as (st'' & Hrun' & _ & Hgone & _).
  rewrite Hrun in Hrun'. injection Hrun' as <-.
  exists st'. split; [assumption|]. split; [|assumption].
  intros a n Ha Hn. split; [exact (Hin a n Ha Hn)|]. now apply (Hgone a n).
Qed.

Lemma Arena_free_releases_buffers_witness :
  exists st', Arena_free 100 ex_one ex_head = Ret st' /\
    (forall a n, a ∈ [ex_head] -> nodes ex_one !! a = Some n ->
       nodes st' !! a = Some (mkArena NULL (_size n) (_alloc_size n) NULL) /\
       (_region n <> NULL -> blocks st' !! _region n = None)) /\
    (forall a, a ∉ [ex_head] -> nodes st' !! a = nodes ex_one !! a).
Proof.
  apply (Arena_free_releases_buffers 100 ex_one ex_head [ex_head]).
  - solve_chain.
  - simpl. lia.
Defined.

(** X10: [Arena_free] frees buffers only. A live block that is not the
    buffer of a region of the chain is still live afterwards, and the chain
    from the head is then the head alone: the [Arena] nodes that
    [Arena_alloc] obtained from the backing allocator are neither freed nor
    reachable any more. *)
Theorem Arena_free_leaks_nodes fuel st h rest q x :
  chain (nodes st) h (h :: rest) -> (S (length rest) < fuel)%nat ->
  blocks st !! q = Some x ->
  (forall a n, a ∈ h :: rest -> nodes st !! a = Some n -> _region n <> q) ->
  exists st', Arena_free fuel st h = Ret st' /\
    chain (nodes st') h [h] /\ blocks st' !! q = Some x.
Proof.
  intros Hc Hfuel Hq Hnot.
  destruct (Arena_free_spec fuel st h (h :: rest) Hc Hfuel) as (st' & Hrun & Hin & _).
  destruct (Arena_free_blocks fuel st h (h :: rest) Hc Hfuel) as (st'' & Hrun' & _ & _ & Hkept).
  rewrite Hrun in Hrun'. injection Hrun' as <-.
  exists st'. split; [assumption|]. split.
  - inversion Hc as [|a n l' Ha Hn Hc']; subst.
    apply (chain_link _ h (released n) []); [assumption| |constructor].
    apply (Hin h n); [apply elem_of_cons; auto|assumption].
  - rewrite (Hkept q Hnot). assumption.
Qed.

(** The arena of examples/arena.c before its [Arena_free]: two regions, the
    second in a node at 7000 that [Arena_alloc] obtained. *)
Lemma Arena_free_leaks_nodes_witness :
  exists st',
    Arena_free 100 (mkHeap (<[7000 := mkArena 6000 33 64 NULL]>
                              {[ ex_head := mkArena 5000 4 16 7000 ]})
                           (<[7000 := 32]> (<[6000 := 64]> {[ 5000 := 16 ]})))
               ex_head = Ret st' /\
    chain (nodes st') ex_head [ex_head] /\ blocks st' !! 7000 = Some 32.
Proof.
  apply (Arena_free_leaks_nodes 100 _ ex_head [7000] 7000 32).
  - solve_chain.
  - simpl. lia.
  - vm_compute. reflexivity.
  - intros a n Ha Hn. apply elem_of_cons in Ha as [->|Ha].
    + assert (E : n = mkArena 5000 4 16 7000)
        by (vm_compute in Hn; now injection Hn as <-).
      rewrite E. discriminate.
    + apply list_elem_of_singleton in Ha as ->.
      assert (E : n = mkArena 6000 33 64 NULL)
        by (vm_compute in Hn; now injection Hn as <-).
      rewrite E. discriminate.
Defined.

(** X11: releasing twice is releasing once: a second [Arena_free] finds a
    head without buffer and without next region, frees nothing and returns
    the heap it was given. *)
Theorem Arena_free_twice fuel st h l st' :
  chain (nodes st) h l -> (length l < fuel)%nat ->
  Arena_free fuel st h = Ret st' -> Arena_free fuel st' h = Ret st'.
Proof.
  intros Hc Hfuel Hrun.
  destruct (Arena_free_spec fuel st h l Hc Hfuel) as (st1 & Hrun1 & Hin & _).
  rewrite Hrun in Hrun1. injection Hrun1 as <-.
  destruct fuel as [|fuel]; [lia|]. cbn [Arena_free].
  inversion Hc as [|a n l' Ha Hn Hc']; subst.
  - change (NULL =? NULL) with true. reflexivity.
  - simpl in Hfuel. destruct (Z.eqb_spec h NULL) as [|_]; [contradiction|].
    assert (Hn' : nodes st' !! h = Some (released n))
      by (apply Hin; [apply elem_of_cons; auto|assumption]).
    rewrite (load_lookup st' h _ Ha Hn'). cbn [mbind res_bind].
    unfold released at 1. cbn [_region _size _alloc_size _next].
    unfold free. change (NULL =? NULL) with true. cbv iota.
    rewrite load_store by assumption. cbn [mbind res_bind _region _size _alloc_size].
    destruct fuel as [|fuel]; [lia|]. cbn [Arena_free].
    change (NULL =? NULL) with true. cbv iota.
    f_equal. unfold store. cbn [nodes blocks]. rewrite insert_insert_eq.
    rewrite insert_id by exact Hn'. now destruct st'.
Qed.

Lemma Arena_free_twice_witness : Arena_free 100 ex_released ex_head = Ret ex_released.
Proof.
  apply (Arena_free_twice 100 ex_one ex_head [ex_head]).
  - solve_chain.
  - simpl. lia.
  - vm_compute. reflexivity.
Defined.

(** * Properties of list.h and region.h *)

Module ListProps.

Import ListH.

Section Typed.

Variable T : Type.
Variable sizeof_T : Z.
Variable zero : T.

Lemma write_inside (m : gmap Z (block T)) p i v b :
  p <> NULL -> m !! p = Some b -> inb T sizeof_T b i = true ->
  write T sizeof_T m p i v = Ret (<[p := mkBlock T (bsize T b) (<[i := v]> (cells T b))]> m).
Proof.
  intros Hp Hb Hin. unfold write.
  destruct (Z.eqb_spec p NULL); [contradiction|]. now rewrite Hb, Hin.
Qed.

Lemma read_inside (m : gmap Z (block T)) p i v b :
  p <> NULL -> m !! p = Some b -> inb T sizeof_T b i = true -> cells T b !! i = Some v ->
  read T sizeof_T m p i = Ret v.
Proof.
  intros Hp Hb Hin Hv. unfold read.
  destruct (Z.eqb_spec p NULL); [contradiction|]. now rewrite Hb, Hin, Hv.
Qed.

Lemma inb_bytes b i :
  sizeof_T = 1 -> 0 <= i < bsize T b -> inb T sizeof_T b i = true.
Proof.
  intros -> Hi. unfold inb. apply andb_true_iff. split; [apply Z.leb_le; lia|].
  apply Z.leb_le. lia.
Qed.

Lemma holds_snoc (m : gmap Z (block T)) R b l v :
  m !! buf R = Some b -> size R = Z.of_nat (length l) ->
  (forall i x, l !! i = Some x -> cells T b !! Z.of_nat i = Some x) ->
  forall i x, (l ++ [v]) !! i = Some x ->
    <[size R := v]> (cells T b) !! Z.of_nat i = Some x.
Proof.
  intros Hb Hs Hl i x Hi.
  destruct (lookup_app_Some l [v] i x) as [Hsplit _].
  destruct (Hsplit Hi) as [Hx|(Hge & Hx)].
  - rewrite lookup_insert_ne; [now apply Hl|].
    apply lookup_lt_Some in Hx. lia.
  - destruct (i - length l)%nat as [|k] eqn:Ek; [|destruct k; discriminate].
    injection Hx as <-. replace (Z.of_nat i) with (size R) by lia.
    apply lookup_insert_eq.
Qed.

(** [List_init_sized] with a size that is not zero, the allocation
    succeeding: an empty list in good shape. *)
Lemma List_init_sized_ok answer S (m : gmap Z (block T)) :
  answer <> NULL -> 0 < S < UINTPTR_MAX1 ->
  list_ok T (List_init_sized T answer S m).1 (List_init_sized T answer S m).2 /\
  holds T (List_init_sized T answer S m).1 (List_init_sized T answer S m).2 [] /\
  error (List_init_sized T answer S m).2 = 0.
Proof.
  intros Ha HS. unfold List_init_sized, malloc.
  rewrite (wrap_small S) by lia.
  destruct (Z.eqb_spec answer NULL); [contradiction|]. cbn [fst snd].
  destruct (Z.eqb_spec answer NULL); [contradiction|].
  unfold list_ok, holds; cbn [buf _alloc_size size error].
  split; [|split; [|reflexivity]].
  - split; [assumption|]. split; [assumption|]. split; [lia|].
    eexists. split; [apply lookup_insert_eq|reflexivity].
  - split; [reflexivity|]. eexists. split; [apply lookup_insert_eq|].
    intros i v Hi. discriminate.
Qed.

Lemma push_appends_spec answer R v (m : gmap Z (block T)) l :
  sizeof_T = 1 -> list_ok T m R -> holds T m R l ->
  size R < _alloc_size R - 1 \/ (answer <> NULL /\ _alloc_size R < 2 ^ 63) ->
  exists m' R', List_push T sizeof_T answer R v m = Ret (m', R') /\
    error R' = 0 /\ size R' = size R + 1 /\
    list_ok T m' R' /\ holds T m' R' (l ++ [v]) /\
    (_alloc_size R' = _alloc_size R \/ _alloc_size R' = 2 * _alloc_size R).
Proof.
  intros Hsz (Hbuf & Hcap & Hsize & b & Hb & Hbs) (Hlen & b' & Hb' & Hcells) Hroom.
  rewrite Hb in Hb'. injection Hb' as <-.
  unfold List_push. unfold list_ok, holds; cbn [buf _alloc_size size error].
  rewrite (wrap_small (_alloc_size R - 1)) by lia.
  assert (Hw : wrap (size R + 1) = size R + 1) by (apply wrap_small; lia).
  destruct (Z.geb_spec (size R) (_alloc_size R - 1)) as [Hfull|Hfree].
  - (* the buffer is grown *)
    destruct Hroom as [?|(Ha & H63)]; [lia|].
    assert (Hdbl : wrap (Z.shiftl (_alloc_size R) 1) = 2 * _alloc_size R).
    { rewrite Z.shiftl_mul_pow2 by lia. change (2 ^ 1) with 2.
      rewrite wrap_small; unfold UINTPTR_MAX1; lia. }
    unfold realloc. destruct (Z.eqb_spec answer NULL); [contradiction|].
    destruct (Z.eqb_spec (buf R) NULL); [contradiction|].
    destruct (Z.eqb_spec answer NULL); [contradiction|].
    rewrite Hb, Hdbl. unfold list_ok, holds; cbn [buf _alloc_size size error].
    set (kept := filter (fun iv : Z * T => (iv.1 + 1) * sizeof_T <= 2 * _alloc_size R)
                        (cells T b)).
    set (m1 := <[answer := mkBlock T (2 * _alloc_size R) kept]> (delete (buf R) m)).
    assert (Hkept : forall i x, l !! i = Some x -> kept !! Z.of_nat i = Some x).
    { intros i x Hi. unfold kept. apply map_lookup_filter_Some. split; [now apply Hcells|].
      cbn. apply lookup_lt_Some in Hi. lia. }
    rewrite (write_inside m1 answer (size R) v (mkBlock T (2 * _alloc_size R) kept));
      [|assumption|apply lookup_insert_eq|apply inb_bytes; cbn; [assumption|lia]].
    cbn [mbind res_bind bsize cells]. rewrite Hw. eexists _, _. split; [reflexivity|].
    unfold list_ok, holds; cbn [buf _alloc_size size error]. split; [reflexivity|]. split; [reflexivity|].
    split; [|split; [|auto]].
    + split; [assumption|]. split; [unfold UINTPTR_MAX1; lia|]. split; [lia|].
      eexists. split; [apply lookup_insert_eq|reflexivity].
    + split; [rewrite length_app; simpl; lia|].
      eexists. split; [apply lookup_insert_eq|]. cbn [cells].
      intros i x Hi.
      apply (holds_snoc (<[answer := mkBlock T (2 * _alloc_size R) kept]> ∅)
               (mkList answer 0 (size R) 0) (mkBlock T (2 * _alloc_size R) kept) l v);
        cbn [buf size cells]; auto. apply lookup_insert_eq.
  - (* there is room *)
    rewrite (write_inside m (buf R) (size R) v b);
      [|assumption|assumption|apply inb_bytes; [assumption|lia]].
    cbn [mbind res_bind]. rewrite Hw. eexists _, _. split; [reflexivity|].
    unfold list_ok, holds; cbn [buf _alloc_size size error]. split; [reflexivity|]. split; [reflexivity|].
    split; [|split; [|auto]].
    + split; [assumption|]. split; [assumption|]. split; [lia|].
      eexists. split; [apply lookup_insert_eq|]. cbn. assumption.
    + split; [rewrite length_app; simpl; lia|].
      eexists. split; [apply lookup_insert_eq|]. cbn [cells].
      intros i x Hi. apply (holds_snoc m R b l v); auto.
Qed.

(** X12: pushing onto a list of one-byte elements that is in good shape,
    when there is room or the reallocation succeeds, never writes outside
    the buffer: it clears [error], appends the value after the elements the
    list holds, keeps those, and leaves the list in good shape with the same
    or twice the capacity. *)
Theorem List_push_appends answer R v (m : gmap Z (block T)) l :
  sizeof_T = 1 -> list_ok T m R -> holds T m R l ->
  size R < _alloc_size R - 1 \/ (answer <> NULL /\ _alloc_size R < 2 ^ 63) ->
  exists m' R', List_push T sizeof_T answer R v m = Ret (m', R') /\
    error R' = 0 /\ size R' = size R + 1 /\
    list_ok T m' R' /\ holds T m' R' (l ++ [v]) /\
    (_alloc_size R' = _alloc_size R \/ _alloc_size R' = 2 * _alloc_size R).
Proof. exact (push_appends_spec answer R v m l). Qed.

Lemma push_failure_spec R v (m : gmap Z (block T)) l :
  list_ok T m R -> holds T m R l -> size R = _alloc_size R - 1 ->
  List_push T sizeof_T NULL R v m = Ret (m, mkList (buf R) (_alloc_size R) (size R) 1) /\
  list_ok T m (mkList (buf R) (_alloc_size R) (size R) 1) /\
  holds T m (mkList (buf R) (_alloc_size R) (size R) 1) l.
Proof.
  intros Hok Hholds Hfull. pose proof Hok as (Hbuf & Hcap & Hsize & Hblk).
  split; [|split; [exact Hok|exact Hholds]].
  unfold List_push. unfold list_ok, holds; cbn [buf _alloc_size size error].
  rewrite (wrap_small (_alloc_size R - 1)) by lia.
  destruct (Z.geb_spec (size R) (_alloc_size R - 1)); [|lia].
  reflexivity.
Qed.

(** X13: pushing onto a full list when the reallocation fails sets [error]
    to 1 and changes nothing else: the memory, the buffer, the capacity, the
    size and the elements held are as before. *)
Theorem List_push_failure R v (m : gmap Z (block T)) l :
  list_ok T m R -> holds T m R l -> size R = _alloc_size R - 1 ->
  List_push T sizeof_T NULL R v m = Ret (m, mkList (buf R) (_alloc_size R) (size R) 1) /\
  list_ok T m (mkList (buf R) (_alloc_size R) (size R) 1) /\
  holds T m (mkList (buf R) (_alloc_size R) (size R) 1) l.
Proof. exact (push_failure_spec R v m l). Qed.

Lemma pop_last_spec R (m : gmap Z (block T)) l v :
  sizeof_T = 1 -> list_ok T m R -> holds T m R (l ++ [v]) ->
  exists R', List_pop T sizeof_T R m = Ret (v, R') /\
    size R' = size R - 1 /\ buf R' = buf R /\ _alloc_size R' = _alloc_size R /\
    list_ok T m R' /\ holds T m R' l.
Proof.
  intros Hsz (Hbuf & Hcap & Hsize & b & Hb & Hbs) (Hlen & b' & Hb' & Hcells).
  rewrite Hb in Hb'. injection Hb' as <-.
  rewrite length_app in Hlen. simpl in Hlen.
  assert (Hw : wrap (size R - 1) = Z.of_nat (length l)) by (rewrite wrap_small; lia).
  unfold List_pop. unfold list_ok, holds; cbn [buf _alloc_size size error]. rewrite Hw.
  rewrite (read_inside m (buf R) (Z.of_nat (length l)) v b);
    [|assumption|assumption|apply inb_bytes; [assumption|lia]|].
  2:{ apply Hcells. rewrite lookup_app_r by lia. now rewrite Nat.sub_diag. }
  cbn [mbind res_bind]. eexists. split; [reflexivity|]. unfold list_ok, holds; cbn [buf _alloc_size size error].
  split; [lia|]. split; [reflexivity|]. split; [reflexivity|]. split.
  - split; [assumption|]. split; [assumption|]. split; [lia|]. eauto.
  - split; [reflexivity|]. exists b. split; [assumption|].
    intros i x Hi. apply Hcells. now apply lookup_app_l_Some.
Qed.

(** X14: popping a list of one-byte elements that holds [l ++ [v]] reads
    inside the buffer and returns [v], the element pushed last; the list
    then holds [l], with the same buffer and capacity. *)
Theorem List_pop_last R (m : gmap Z (block T)) l v :
  sizeof_T = 1 -> list_ok T m R -> holds T m R (l ++ [v]) ->
  exists R', List_pop T sizeof_T R m = Ret (v, R') /\
    size R' = size R - 1 /\ buf R' = buf R /\ _alloc_size R' = _alloc_size R /\
    list_ok T m R' /\ holds T m R' l.
Proof. exact (pop_last_spec R m l v). Qed.

(** X15: a push that reports no error followed by a pop gives back the value
    pushed and a list of the size it had, holding the elements it held,
    whether or not the push moved the buffer. *)
Theorem List_push_pop answer R v (m : gmap Z (block T)) l m1 R1 :
  sizeof_T = 1 -> list_ok T m R -> holds T m R l -> _alloc_size R < 2 ^ 63 ->
  List_push T sizeof_T answer R v m = Ret (m1, R1) -> error R1 = 0 ->
  exists R2, List_pop T sizeof_T R1 m1 = Ret (v, R2) /\
    size R2 = size R /\ holds T m1 R2 l.
Proof.
  intros Hsz Hok Hholds H63 Hrun Herr.
  assert (Hroom : size R < _alloc_size R - 1 \/ (answer <> NULL /\ _alloc_size R < 2 ^ 63)).
  { destruct (Z_lt_le_dec (size R) (_alloc_size R - 1)) as [|Hfull]; [auto|].
    destruct (Z.eq_dec answer NULL) as [->|]; [|auto].
    pose proof Hok as (_ & _ & Hsize & _).
    destruct (push_failure_spec R v m l Hok Hholds) as (Hfail & _); [lia|].
    rewrite Hfail in Hrun. injection Hrun as <- <-. discriminate. }
  destruct (push_appends_spec answer R v m l Hsz Hok Hholds Hroom)
    as (m' & R' & Hrun' & _ & Hs' & Hok' & Hholds' & _).
  rewrite Hrun in Hrun'. injection Hrun' as <- <-.
  destruct (pop_last_spec R1 m1 l v Hsz Hok' Hholds') as (R2 & Hpop & Hs2 & _ & _ & _ & Hh2).
  exists R2. split; [assumption|]. split; [lia|assumption].
Qed.

(** X16: [List_pop] does not check for an empty list: with [size = 0] the
    decrement wraps to [2^64 - 1] and the read is outside any buffer. *)
Theorem List_pop_empty R (m : gmap Z (block T)) :
  0 < sizeof_T -> size R = 0 ->
  (forall b, m !! buf R = Some b -> bsize T b < UINTPTR_MAX1 * sizeof_T) ->
  List_pop T sizeof_T R m = Fault /\
  wrap (size R - 1) = UINTPTR_MAX1 - 1 /\
  forall b, m !! buf R = Some b -> inb T sizeof_T b (wrap (size R - 1)) = false.
Proof.
  intros Hsz Hs Hblk. rewrite Hs.
  assert (Hout : forall b, m !! buf R = Some b ->
            inb T sizeof_T b (wrap (0 - 1)) = false).
  { intros b Hb. specialize (Hblk b Hb). unfold inb. apply andb_false_iff. right.
    apply Z.leb_gt. change (wrap (0 - 1)) with (UINTPTR_MAX1 - 1). lia. }
  split; [|split; [reflexivity|exact Hout]].
  unfold List_pop, read. cbn [buf size]. rewrite Hs.
  destruct (buf R =? NULL); [reflexivity|].
  destruct (m !! buf R) as [b|] eqn:Hb; [|reflexivity].
  now rewrite (Hout b eq_refl).
Qed.

(** X17: dropping from a list of one-byte elements that holds [l ++ [v]]
    writes 0 over [v] and shrinks the list, which then holds [l]. *)
Theorem List_drop_last R (m : gmap Z (block T)) l v :
  sizeof_T = 1 -> list_ok T m R -> holds T m R (l ++ [v]) ->
  exists m' R' b', List_drop T sizeof_T zero R m = Ret (m', R') /\
    size R' = size R - 1 /\ list_ok T m' R' /\ holds T m' R' l /\
    m' !! buf R' = Some b' /\ cells T b' !! size R' = Some zero.
Proof.
  intros Hsz (Hbuf & Hcap & Hsize & b & Hb & Hbs) (Hlen & b' & Hb' & Hcells).
  rewrite Hb in Hb'. injection Hb' as <-.
  rewrite length_app in Hlen. simpl in Hlen.
  assert (Hw : wrap (size R - 1) = Z.of_nat (length l)) by (rewrite wrap_small; lia).
  unfold List_drop. unfold list_ok, holds; cbn [buf _alloc_size size error]. rewrite Hw.
  rewrite (write_inside m (buf R) (Z.of_nat (length l)) zero b);
    [|assumption|assumption|apply inb_bytes; [assumption|lia]].
  cbn [mbind res_bind]. eexists _, _, _. split; [reflexivity|].
  unfold list_ok, holds; cbn [buf _alloc_size size error]. split; [lia|]. split; [|split; [|split]].
  - split; [assumption|]. split; [assumption|]. split; [lia|].
    eexists. split; [apply lookup_insert_eq|]. cbn. assumption.
  - split; [reflexivity|]. eexists. split; [apply lookup_insert_eq|]. cbn [cells].
    intros i x Hi. rewrite lookup_insert_ne.
    + apply Hcells. now apply lookup_app_l_Some.
    + apply lookup_lt_Some in Hi. lia.
  - apply lookup_insert_eq.
  - cbn [cells]. apply lookup_insert_eq.
Qed.

(** X18: a list made with [List_init_sized(list, 0)] cannot be pushed to:
    [_alloc_size - 1] wraps to [2^64 - 1], so the push sees room, does not
    grow the buffer, and writes outside it (or through [NULL] when the
    allocation of zero bytes gave [NULL]). *)
Theorem zero_sized_list_push answer answer' v (m : gmap Z (block T)) :
  0 < sizeof_T ->
  List_push T sizeof_T answer' (List_init_sized T answer 0 m).2 v
            (List_init_sized T answer 0 m).1 = Fault /\
  (size (List_init_sized T answer 0 m).2
     >=? wrap (_alloc_size (List_init_sized T answer 0 m).2 - 1)) = false /\
  forall b, (List_init_sized T answer 0 m).1 !! buf (List_init_sized T answer 0 m).2 = Some b ->
    buf (List_init_sized T answer 0 m).2 <> NULL ->
    inb T sizeof_T b (size (List_init_sized T answer 0 m).2) = false.
Proof.
  intros Hsz. unfold List_init_sized, malloc. change (wrap 0) with 0.
  assert (Hout : inb T sizeof_T (mkBlock T 0 ∅) 0 = false).
  { unfold inb. apply andb_false_iff. right. apply Z.leb_gt. cbn. lia. }
  destruct (Z.eqb_spec answer NULL) as [->|Ha]; cbn [fst snd buf _alloc_size size].
  - split; [reflexivity|]. split; [reflexivity|]. intros b _ Hnn. contradiction.
  - split; [|split; [reflexivity|]].
    + unfold List_push. cbn [buf _alloc_size size error].
      change (0 >=? wrap (0 - 1)) with false. cbv iota.
      unfold write. destruct (Z.eqb_spec answer NULL); [contradiction|].
      rewrite lookup_insert_eq. now rewrite Hout.
    + intros b Hb _. rewrite lookup_insert_eq in Hb. injection Hb as <-. exact Hout.
Qed.

(** X19: the capacity check of [List_push] compares a count of elements with
    a count of bytes. For elements wider than a byte, a push at an index
    that the check lets through ([size < _alloc_size - 1]) but whose element
    ends beyond the [_alloc_size] bytes of the buffer writes outside the
    buffer without growing it. *)
Theorem wide_elements_push_outside answer R v (m : gmap Z (block T)) b :
  m !! buf R = Some b -> bsize T b = _alloc_size R ->
  0 < _alloc_size R < UINTPTR_MAX1 -> 0 <= size R < _alloc_size R - 1 ->
  _alloc_size R < (size R + 1) * sizeof_T ->
  List_push T sizeof_T answer R v m = Fault /\
  (size R >=? wrap (_alloc_size R - 1)) = false /\
  inb T sizeof_T b (size R) = false.
Proof.
  intros Hb Hbs Hcap Hsize Hwide.
  assert (Hout : inb T sizeof_T b (size R) = false).
  { unfold inb. apply andb_false_iff. right. apply Z.leb_gt. lia. }
  assert (Hchk : (size R >=? wrap (_alloc_size R - 1)) = false).
  { rewrite (wrap_small (_alloc_size R - 1)) by lia.
    destruct (Z.geb_spec (size R) (_alloc_size R - 1)); [lia|reflexivity]. }
  split; [|split; assumption].
  unfold List_push. cbn [buf _alloc_size size error]. rewrite Hchk.
  unfold write. destruct (buf R =? NULL); [reflexivity|]. now rewrite Hb, Hout.
Qed.

End Typed.

Lemma ex_full_ok : list_ok Z ex_full_mem ex_full_list.
Proof.
  unfold list_ok, ex_full_list, UINTPTR_MAX1. cbn [buf _alloc_size size].
  split; [discriminate|]. split; [lia|]. split; [lia|].
  eexists. split; [vm_compute; reflexivity|reflexivity].
Qed.

Lemma ex_full_holds : holds Z ex_full_mem ex_full_list ([] ++ [72]).
Proof.
  split; [reflexivity|]. eexists. split; [vm_compute; reflexivity|].
  intros [|i] v Hi; [|discriminate]. injection Hi as <-. vm_compute. reflexivity.
Qed.

Lemma ex_grown_ok : list_ok Z ex_grown_mem ex_grown_list.
Proof.
  unfold list_ok, ex_grown_list, UINTPTR_MAX1. cbn [buf _alloc_size size].
  split; [discriminate|]. split; [lia|]. split; [lia|].
  eexists. split; [vm_compute; reflexivity|reflexivity].
Qed.

Lemma List_push_appends_witness :
  exists m' R', List_push Z 1 6000 ex_full_list 101 ex_full_mem = Ret (m', R') /\
    error R' = 0 /\ size R' = size ex_full_list + 1 /\
    list_ok Z m' R' /\ holds Z m' R' (([] ++ [72]) ++ [101]) /\
    (_alloc_size R' = _alloc_size ex_full_list \/
     _alloc_size R' = 2 * _alloc_size ex_full_list).
Proof.
  apply (List_push_appends Z 1 6000 ex_full_list 101 ex_full_mem ([] ++ [72])).
  - reflexivity.
  - exact ex_full_ok.
  - exact ex_full_holds.
  - right. split; [discriminate|]. cbn. lia.
Defined.

Lemma List_push_failure_witness :
  List_push Z 1 NULL ex_full_list 101 ex_full_mem =
    Ret (ex_full_mem,
         mkList (buf ex_full_list) (_alloc_size ex_full_list) (size ex_full_list) 1) /\
  list_ok Z ex_full_mem
    (mkList (buf ex_full_list) (_alloc_size ex_full_list) (size ex_full_list) 1) /\
  holds Z ex_full_mem
    (mkList (buf ex_full_list) (_alloc_size ex_full_list) (size ex_full_list) 1)
    ([] ++ [72]).
Proof.
  apply (List_push_failure Z 1 ex_full_list 101 ex_full_mem ([] ++ [72])).
  - exact ex_full_ok.
  - exact ex_full_holds.
  - reflexivity.
Defined.

Lemma List_pop_last_witness :
  exists R', List_pop Z 1 ex_full_list ex_full_mem = Ret (72, R') /\
    size R' = size ex_full_list - 1 /\ buf R' = buf ex_full_list /\
    _alloc_size R' = _alloc_size ex_full_list /\
    list_ok Z ex_full_mem R' /\ holds Z ex_full_mem R' [].
Proof.
  apply (List_pop_last Z 1 ex_full_list ex_full_mem [] 72).
  - reflexivity.
  - exact ex_full_ok.
  - exact ex_full_holds.
Defined.

Lemma List_push_pop_witness :
  exists R2, List_pop Z 1 ex_grown_list ex_grown_mem = Ret (101, R2) /\
    size R2 = size ex_full_list /\ holds Z ex_grown_mem R2 ([] ++ [72]).
Proof.
  apply (List_push_pop Z 1 6000 ex_full_list 101 ex_full_mem ([] ++ [72])).
  - reflexivity.
  - exact ex_full_ok.
  - exact ex_full_holds.
  - cbn. lia.
  - vm_compute. reflexivity.
  - reflexivity.
Defined.

Lemma List_pop_empty_witness :
  List_pop Z 1 ex_empty_list ex_empty_mem = Fault /\
  wrap (size ex_empty_list - 1) = UINTPTR_MAX1 - 1 /\
  forall b, ex_empty_mem !! buf ex_empty_list = Some b ->
    inb Z 1 b (wrap (size ex_empty_list - 1)) = false.
Proof.
  apply (List_pop_empty Z 1 ex_empty_list ex_empty_mem).
  - lia.
  - reflexivity.
  - intros b Hb. vm_compute in Hb. injection Hb as <-. unfold UINTPTR_MAX1. cbn. lia.
Defined.

Lemma List_drop_last_witness :
  exists m' R' b', List_drop Z 1 0 ex_full_list ex_full_mem = Ret (m', R') /\
    size R' = size ex_full_list - 1 /\ list_ok Z m' R' /\ holds Z m' R' [] /\
    m' !! buf R' = Some b' /\ cells Z b' !! size R' = Some 0.
Proof.
  apply (List_drop_last Z 1 0 ex_full_list ex_full_mem [] 72).
  - reflexivity.
  - exact ex_full_ok.
  - exact ex_full_holds.
Defined.

Lemma zero_sized_list_push_witness :
  List_push Z 1 6000 (List_init_sized Z 5000 0 ∅).2 72 (List_init_sized Z 5000 0 ∅).1
    = Fault /\
  (size (List_init_sized Z 5000 0 ∅).2
     >=? wrap (_alloc_size (List_init_sized Z 5000 0 ∅).2 - 1)) = false /\
  forall b, (List_init_sized Z 5000 0 ∅).1 !! buf (List_init_sized Z 5000 0 ∅).2 = Some b ->
    buf (List_init_sized Z 5000 0 ∅).2 <> NULL ->
    inb Z 1 b (size (List_init_sized Z 5000 0 ∅).2) = false.
Proof. apply (zero_sized_list_push Z 1 5000 6000 72 ∅). lia. Defined.

Lemma wide_elements_push_outside_witness :
  List_push Z 4 6000 ex_int_list 5 ex_int_mem = Fault /\
  (size ex_int_list >=? wrap (_alloc_size ex_int_list - 1)) = false /\
  inb Z 4 (mkBlock Z 16 (<[3 := 4]> (<[2 := 3]> (<[1 := 2]> {[ 0 := 1 ]}))))
      (size ex_int_list) = false.
Proof.
  apply (wide_elements_push_outside Z 4 6000 ex_int_list 5 ex_int_mem
           (mkBlock Z 16 (<[3 := 4]> (<[2 := 3]> (<[1 := 2]> {[ 0 := 1 ]}))))).
  - vm_compute. reflexivity.
  - reflexivity.
  - unfold UINTPTR_MAX1. cbn. lia.
  - cbn. lia.
  - cbn. lia.
Defined.

End ListProps.
